(** * iqair_exporter: a shallow embedding of the Prometheus collector

    The development follows [iqair_exporter.go]: the exporter record, its
    constructor, [Describe], [scrape] and [Collect].  The Go runtime and the
    libraries the program calls (net/http, io, encoding/json, the Prometheus
    client and sync) are modelled just far enough to run the collector:
    - a [float64] is a [spec_float] of the binary64 format,
    - a pointer that may be nil is an [option],
    - a channel is the list of values sent on it, oldest first,
    - a run-time panic is an explicit outcome of the computation. *)

From Stdlib Require Import ZArith List String Ascii Bool Lia QArith.
From Stdlib Require Import Floats.SpecFloat.
Import ListNotations.

Local Open Scope Z_scope.

(** ** float64: IEEE-754 binary64 values *)

Module Float64.

Definition prec : Z := 53.
Definition emax : Z := 1024.

Definition float64 : Type := spec_float.

Definition zero : float64 := S754_zero false.

(** The conversion [float64(n)] of a Go integer: the nearest binary64
    value, ties to even. *)
Definition of_int (n : Z) : float64 := binary_normalize prec emax n 0 false.

(** The constants [0] and [1] that [scrape] returns for [up]. *)
Definition const_0 : float64 := of_int 0.
Definition const_1 : float64 := of_int 1.

(** [of_decimal neg m e] is the binary64 value nearest to [m * 10^e]
    (negated when [neg]), ties to even: what [strconv.ParseFloat]
    computes from the digits of a literal. *)
Definition of_decimal (neg : bool) (m : Z) (e : Z) : float64 :=
  match m with
  | Z0 => S754_zero neg
  | Zneg _ => S754_nan
  | Zpos p =>
      match e with
      | Zneg k =>
          let '(q, e', l) :=
            SFdiv_core_binary prec emax (Zpos p) 0 (Z.pow_pos 10 k) 0 in
          binary_round_aux prec emax neg q e' l
      | _ =>
          match Z.pow 10 e * Zpos p with
          | Zpos v => binary_round prec emax neg v 0
          | _ => S754_nan
          end
      end
  end.

Definition is_finite (f : float64) : bool :=
  match f with
  | S754_zero _ | S754_finite _ _ _ => true
  | _ => false
  end.

(** The rational number a finite binary64 value stands for. *)
Definition to_Q (f : float64) : option Q :=
  match f with
  | S754_zero _ => Some (0 # 1)
  | S754_finite s m e =>
      let n := if s then Zneg m else Zpos m in
      Some match e with
           | Z0 => n # 1
           | Zpos k => (n * Z.pow_pos 2 k) # 1
           | Zneg k => n # (Pos.pow 2 k)
           end
  | _ => None
  end.

(** The values of the format: the special values, and the finite ones
    whose mantissa and exponent are those of the format. *)
Definition valid (f : float64) : bool := valid_binary prec emax f.

(** [represents f q]: [f] is finite and its value is exactly [q]. *)
Definition represents (f : float64) (q : Q) : Prop :=
  match to_Q f with
  | Some v => v == q
  | None => False
  end.

End Float64.

Abbreviation float64 := Float64.float64.


(** ** strconv: number literals *)

Module strconv.

(** A decimal literal as the JSON scanner delimits it: sign, the digits of
    the integer and fraction parts read as one decimal integer, the number
    of fraction digits (0 when the literal has no fraction part) and the
    exponent part, if any. *)
Record decimal : Type := mkDecimal {
  neg : bool;
  digits : Z;
  frac_len : nat;
  exp : option Z
}.

(** The literal of an integer, as [strconv.Itoa] would print it. *)
Definition of_Z (z : Z) : decimal := mkDecimal (z <? 0) (Z.abs z) 0 None.

(** [ParseInt(s, 10, 64)]: only a literal with neither fraction nor
    exponent is an integer, and it must fit a signed 64-bit word. *)
Definition ParseInt (d : decimal) : option Z :=
  match frac_len d, exp d with
  | O, None =>
      let v := if neg d then - digits d else digits d in
      if (- 2 ^ 63 <=? v) && (v <? 2 ^ 63) then Some v else None
  | _, _ => None
  end.

(** The power of ten the digits of a literal are multiplied by. *)
Definition scale (d : decimal) : Z :=
  match exp d with Some e => e | None => 0 end - Z.of_nat (frac_len d).

(** The rational number a literal denotes. *)
Definition value (d : decimal) : Q :=
  let m := if neg d then - digits d else digits d in
  match scale d with
  | Zneg k => m # (10 ^ k)
  | e => inject_Z (m * 10 ^ e)
  end.

(** The value [ParseFloat(s, 64)] returns, with or without an error: the
    binary64 value the literal rounds to, an infinity when it is out of
    range. *)
Definition float_value (d : decimal) : float64 :=
  Float64.of_decimal (neg d) (digits d) (scale d).

(** [ParseFloat(s, 64)]: [None] stands for the range error returned with
    an infinity. *)
Definition ParseFloat (d : decimal) : option float64 :=
  let f := float_value d in
  if Float64.is_finite f then Some f else None.

End strconv.

(** ** The upstream document (iqair_exporter.go, lines 97-107)

    Go's [int] is taken to be 64 bits wide. *)

Record APIData : Type := mkAPIData {
  CO2 : Z;           (* `json:"co"` *)
  P25 : Z;           (* `json:"p2"` *)
  P10 : Z;           (* `json:"p1"` *)
  Temperature : float64;  (* `json:"tp"` *)
  Humidity : Z       (* `json:"hm"` *)
}.

Record APIResponse : Type := mkAPIResponse {
  Current : APIData  (* `json:"current"` *)
}.

(** The zero value of each struct, which [var parsed APIResponse] holds. *)
Definition APIData_zero : APIData := mkAPIData 0 0 0 Float64.zero 0.
Definition APIResponse_zero : APIResponse := mkAPIResponse APIData_zero.

(** ** encoding/json: the syntax of a JSON text

    [json.Unmarshal] first checks the whole input against the JSON grammar
    and only then decodes it.  The model does the same in two passes: [parse]
    turns the bytes into a [value] (and fails exactly where the grammar
    does), [Unmarshal] further down decodes that value into the Go struct. *)

Module json.

Inductive value : Type :=
| JNull
| JBool (b : bool)
| JNumber (n : strconv.decimal)
| JString (s : string)
| JArray (elems : list value)
| JObject (members : list (string * value)).

Inductive result (A : Type) : Type :=
| Ok (a : A) (rest : string)
| SyntaxError
| OutOfFuel.
Arguments Ok {A} a rest.
Arguments SyntaxError {A}.
Arguments OutOfFuel {A}.

Definition is_space (c : ascii) : bool :=
  match c with
  | " "%char | "009"%char | "010"%char | "013"%char => true
  | _ => false
  end.

Fixpoint skip_space (s : string) : string :=
  match s with
  | String c r => if is_space c then skip_space r else s
  | EmptyString => s
  end.

Definition digit_of (c : ascii) : option Z :=
  let n := Z.of_N (N_of_ascii c) in
  if (48 <=? n) && (n <=? 57) then Some (n - 48) else None.

Definition hex_of (c : ascii) : option Z :=
  let n := Z.of_N (N_of_ascii c) in
  if (48 <=? n) && (n <=? 57) then Some (n - 48)
  else if (97 <=? n) && (n <=? 102) then Some (n - 87)
  else if (65 <=? n) && (n <=? 70) then Some (n - 55)
  else None.

(** [read_digits s acc n] reads the longest run of decimal digits at the
    head of [s], accumulating their value on [acc] and their count on [n]. *)
Fixpoint read_digits (s : string) (acc : Z) (n : nat) : Z * nat * string :=
  match s with
  | String c r =>
      match digit_of c with
      | Some d => read_digits r (10 * acc + d) (S n)
      | None => (acc, n, s)
      end
  | EmptyString => (acc, n, s)
  end.

(** The integer part: a single [0], or a non-zero digit and more digits. *)
Definition read_int_part (s : string) : option (Z * string) :=
  match s with
  | String c r =>
      match digit_of c with
      | Some 0 => Some (0, r)
      | Some d => let '(v, _, r') := read_digits r d 1%nat in Some (v, r')
      | None => None
      end
  | EmptyString => None
  end.

(** A run of at least one digit. *)
Definition read_digits1 (s : string) (acc : Z) : option (Z * nat * string) :=
  match read_digits s acc 0%nat with
  | (_, O, _) => None
  | res => Some res
  end.

(** The optional fraction part: a dot and at least one digit. *)
Definition read_frac_part (acc : Z) (s : string) : option (Z * nat * string) :=
  match s with
  | String "."%char r => read_digits1 r acc
  | _ => Some (acc, O, s)
  end.

Definition read_minus (s : string) : bool * string :=
  match s with
  | String "-"%char r => (true, r)
  | _ => (false, s)
  end.

Definition read_sign (s : string) : bool * string :=
  match s with
  | String "-"%char r => (true, r)
  | String "+"%char r => (false, r)
  | _ => (false, s)
  end.

(** The optional exponent part: [e] or [E], a sign, at least one digit. *)
Definition read_exp_part (s : string) : option (option Z * string) :=
  match s with
  | String c r =>
      if (Ascii.eqb c "e" || Ascii.eqb c "E")%bool then
        let '(neg, r1) := read_sign r in
        match read_digits1 r1 0 with
        | Some (v, _, r2) => Some (Some (if neg then - v else v), r2)
        | None => None
        end
      else Some (None, s)
  | EmptyString => Some (None, s)
  end.

Definition parse_number (s : string) : option (strconv.decimal * string) :=
  let '(neg, s1) := read_minus s in
  match read_int_part s1 with
  | None => None
  | Some (i, s2) =>
      match read_frac_part i s2 with
      | None => None
      | Some (m, fl, s3) =>
          match read_exp_part s3 with
          | None => None
          | Some (e, s4) => Some (strconv.mkDecimal neg m fl e, s4)
          end
      end
  end.

(** The UTF-8 encoding of a code point below 2^16, as [unquote] appends it
    for a [\u] escape.  A surrogate half is written as U+FFFD. *)
Definition byte (n : Z) : ascii := ascii_of_N (Z.to_N n).

Definition utf8 (cp : Z) (tail : string) : string :=
  if cp <? 128 then String (byte cp) tail
  else if cp <? 2048 then
    String (byte (192 + cp / 64)) (String (byte (128 + cp mod 64)) tail)
  else
    let cp := if (55296 <=? cp) && (cp <? 57344) then 65533 else cp in
    String (byte (224 + cp / 4096))
      (String (byte (128 + (cp / 64) mod 64))
         (String (byte (128 + cp mod 64)) tail)).

Definition simple_escape (c : ascii) : option ascii :=
  match c with
  | "034"%char => Some "034"%char
  | "\"%char => Some "\"%char
  | "/"%char => Some "/"%char
  | "b"%char => Some "008"%char
  | "f"%char => Some "012"%char
  | "n"%char => Some "010"%char
  | "r"%char => Some "013"%char
  | "t"%char => Some "009"%char
  | _ => None
  end.

(** The code point of a [\u] escape, from its four hex digits. *)
Definition hex4 (h1 h2 h3 h4 : ascii) : option Z :=
  match hex_of h1, hex_of h2, hex_of h3, hex_of h4 with
  | Some a, Some b, Some c, Some d => Some (((a * 16 + b) * 16 + c) * 16 + d)
  | _, _, _, _ => None
  end.

(** [parse_string s] reads a string literal after its opening quote and
    returns its unquoted contents and what follows the closing quote. *)
Fixpoint parse_string (s : string) : option (string * string) :=
  match s with
  | EmptyString => None
  | String c r =>
      if Ascii.eqb c "034" then Some (EmptyString, r)
      else if Ascii.eqb c "\" then
        match r with
        | EmptyString => None
        | String e r1 =>
            if Ascii.eqb e "u" then
              match r1 with
              | String h1 (String h2 (String h3 (String h4 r2))) =>
                  match hex4 h1 h2 h3 h4 with
                  | Some cp =>
                      match parse_string r2 with
                      | Some (t, r') => Some (utf8 cp t, r')
                      | None => None
                      end
                  | None => None
                  end
              | _ => None
              end
            else
              match simple_escape e with
              | Some c' =>
                  match parse_string r1 with
                  | Some (t, r') => Some (String c' t, r')
                  | None => None
                  end
              | None => None
              end
        end
      else if (N_of_ascii c <? 32)%N then None
      else
        match parse_string r with
        | Some (t, r') => Some (String c t, r')
        | None => None
        end
  end.

(** [expect lit s] strips the prefix [lit] from [s]. *)
Fixpoint expect (lit : string) (s : string) : option string :=
  match lit with
  | EmptyString => Some s
  | String a lit' =>
      match s with
      | String b r => if Ascii.eqb a b then expect lit' r else None
      | EmptyString => None
      end
  end.

Definition literal {A : Type} (lit : string) (v : A) (s : string) : result A :=
  match expect lit s with
  | Some r => Ok v r
  | None => SyntaxError
  end.

(** [peek c s] strips the character [c] from the head of [s]. *)
Definition peek (c : ascii) (s : string) : option string :=
  match s with
  | String c' r => if Ascii.eqb c c' then Some r else None
  | EmptyString => None
  end.

(** The scanner refuses a text in which more than [max_depth] arrays and
    objects are open at once. *)
Definition max_depth : N := 10000.

(** Recursive descent over the grammar.  [parse_value] reads one value,
    [parse_elements] the elements of an array and its closing bracket,
    [parse_members] the members of an object and its closing brace.
    [depth] is the number of arrays and objects open around what is read. *)
Fixpoint parse_value (fuel : nat) (depth : N) (s : string) {struct fuel}
  : result value :=
  match fuel with
  | O => OutOfFuel
  | S fuel =>
      match skip_space s with
      | EmptyString => SyntaxError
      | String c r =>
          if Ascii.eqb c "{" then
            if (max_depth <=? depth)%N then SyntaxError
            else
              match peek "}" (skip_space r) with
              | Some r' => Ok (JObject []) r'
              | None =>
                  match parse_members fuel (N.succ depth) (skip_space r) with
                  | Ok ms r' => Ok (JObject ms) r'
                  | SyntaxError => SyntaxError
                  | OutOfFuel => OutOfFuel
                  end
              end
          else if Ascii.eqb c "[" then
            if (max_depth <=? depth)%N then SyntaxError
            else
              match peek "]" (skip_space r) with
              | Some r' => Ok (JArray []) r'
              | None =>
                  match parse_elements fuel (N.succ depth) (skip_space r) with
                  | Ok vs r' => Ok (JArray vs) r'
                  | SyntaxError => SyntaxError
                  | OutOfFuel => OutOfFuel
                  end
              end
          else if Ascii.eqb c "034" then
            match parse_string r with
            | Some (t, r') => Ok (JString t) r'
            | None => SyntaxError
            end
          else if Ascii.eqb c "t" then literal "rue" (JBool true) r
          else if Ascii.eqb c "f" then literal "alse" (JBool false) r
          else if Ascii.eqb c "n" then literal "ull" JNull r
          else
            match parse_number (String c r) with
            | Some (n, r') => Ok (JNumber n) r'
            | None => SyntaxError
            end
      end
  end

with parse_elements (fuel : nat) (depth : N) (s : string) {struct fuel}
  : result (list value) :=
  match fuel with
  | O => OutOfFuel
  | S fuel =>
      match parse_value fuel depth s with
      | Ok v r =>
          match peek "," (skip_space r) with
          | Some r' =>
              match parse_elements fuel depth r' with
              | Ok vs r'' => Ok (v :: vs) r''
              | SyntaxError => SyntaxError
              | OutOfFuel => OutOfFuel
              end
          | None =>
              match peek "]" (skip_space r) with
              | Some r' => Ok [v] r'
              | None => SyntaxError
              end
          end
      | SyntaxError => SyntaxError
      | OutOfFuel => OutOfFuel
      end
  end

with parse_members (fuel : nat) (depth : N) (s : string) {struct fuel}
  : result (list (string * value)) :=
  match fuel with
  | O => OutOfFuel
  | S fuel =>
      match peek "034" (skip_space s) with
      | None => SyntaxError
      | Some r =>
          match parse_string r with
          | None => SyntaxError
          | Some (k, r1) =>
              match peek ":" (skip_space r1) with
              | None => SyntaxError
              | Some r2 =>
                  match parse_value fuel depth r2 with
                  | Ok v r3 =>
                      match peek "," (skip_space r3) with
                      | Some r4 =>
                          match parse_members fuel depth r4 with
                          | Ok ms r5 => Ok ((k, v) :: ms) r5
                          | SyntaxError => SyntaxError
                          | OutOfFuel => OutOfFuel
                          end
                      | None =>
                          match peek "}" (skip_space r3) with
                          | Some r4 => Ok [(k, v)] r4
                          | None => SyntaxError
                          end
                      end
                  | SyntaxError => SyntaxError
                  | OutOfFuel => OutOfFuel
                  end
              end
          end
      end
  end.

(** Enough fuel for any input: no call chain is longer than twice the
    number of bytes left (lemma [parse_never_out_of_fuel]). *)
Definition fuel_for (s : string) : nat := (2 * String.length s + 2)%nat.

(** [parse data]: the value the whole of [data] denotes, [None] when
    [data] is not one JSON value surrounded by white space, or is nested
    deeper than [max_depth]. *)
Definition parse (data : string) : option value :=
  match parse_value (fuel_for data) 0 data with
  | Ok v r =>
      match skip_space r with
      | EmptyString => Some v
      | _ => None
      end
  | _ => None
  end.

(** *** Decoding into [APIResponse]

    A key selects the field whose tag it equals, letter case ignored;
    other keys are skipped.  A value of the wrong kind, or an integer the
    field cannot hold, leaves the field as it is and is remembered as an
    [UnmarshalTypeError]; a number out of the range of the [float64] field
    is remembered likewise and stores the infinity [ParseFloat] returned;
    [null] leaves the field as it is without error.
    Decoding goes on after such an error and the first one is returned. *)

Inductive error : Type :=
| SyntaxErr
| UnmarshalTypeError.

Definition to_lower (c : ascii) : ascii :=
  let n := N_of_ascii c in
  if ((65 <=? n) && (n <=? 90))%N then ascii_of_N (n + 32) else c.

Fixpoint equal_fold (name key : string) : bool :=
  match name, key with
  | EmptyString, EmptyString => true
  | String a name', String b key' =>
      Ascii.eqb (to_lower a) (to_lower b) && equal_fold name' key'
  | _, _ => false
  end.

(** [saveError]: only the first error is kept. *)
Definition save_error (saved new : option error) : option error :=
  match saved with
  | Some _ => saved
  | None => new
  end.

Definition store_int (v : value) (cur : Z) : Z * option error :=
  match v with
  | JNull => (cur, None)
  | JNumber n =>
      match strconv.ParseInt n with
      | Some i => (i, None)
      | None => (cur, Some UnmarshalTypeError)
      end
  | _ => (cur, Some UnmarshalTypeError)
  end.

Definition store_float (v : value) (cur : float64) : float64 * option error :=
  match v with
  | JNull => (cur, None)
  | JNumber n =>
      match strconv.ParseFloat n with
      | Some f => (f, None)
      | None => (strconv.float_value n, Some UnmarshalTypeError)
      end
  | _ => (cur, Some UnmarshalTypeError)
  end.

(** One member of the inner object, stored into the [APIData] struct. *)
Definition store_field (key : string) (v : value) (d : APIData)
  : APIData * option error :=
  if equal_fold "co" key then
    let '(x, e) := store_int v (CO2 d) in
    (mkAPIData x (P25 d) (P10 d) (Temperature d) (Humidity d), e)
  else if equal_fold "p2" key then
    let '(x, e) := store_int v (P25 d) in
    (mkAPIData (CO2 d) x (P10 d) (Temperature d) (Humidity d), e)
  else if equal_fold "p1" key then
    let '(x, e) := store_int v (P10 d) in
    (mkAPIData (CO2 d) (P25 d) x (Temperature d) (Humidity d), e)
  else if equal_fold "tp" key then
    let '(x, e) := store_float v (Temperature d) in
    (mkAPIData (CO2 d) (P25 d) (P10 d) x (Humidity d), e)
  else if equal_fold "hm" key then
    let '(x, e) := store_int v (Humidity d) in
    (mkAPIData (CO2 d) (P25 d) (P10 d) (Temperature d) x, e)
  else (d, None).

Fixpoint store_fields (ms : list (string * value)) (d : APIData)
  (saved : option error) : APIData * option error :=
  match ms with
  | [] => (d, saved)
  | (k, v) :: ms' =>
      let '(d', e) := store_field k v d in
      store_fields ms' d' (save_error saved e)
  end.

Definition store_APIData (v : value) (d : APIData) : APIData * option error :=
  match v with
  | JNull => (d, None)
  | JObject ms => store_fields ms d None
  | _ => (d, Some UnmarshalTypeError)
  end.

Fixpoint store_members (ms : list (string * value)) (r : APIResponse)
  (saved : option error) : APIResponse * option error :=
  match ms with
  | [] => (r, saved)
  | (k, v) :: ms' =>
      if equal_fold "current" k then
        let '(d, e) := store_APIData v (Current r) in
        store_members ms' (mkAPIResponse d) (save_error saved e)
      else store_members ms' r saved
  end.

Definition store_APIResponse (v : value) (r : APIResponse)
  : APIResponse * option error :=
  match v with
  | JNull => (r, None)
  | JObject ms => store_members ms r None
  | _ => (r, Some UnmarshalTypeError)
  end.

(** [json.Unmarshal(data, &r)]: the struct after the call and the error
    returned, [None] for [nil]. *)
Definition Unmarshal (data : string) (r : APIResponse)
  : APIResponse * option error :=
  match parse data with
  | None => (r, Some SyntaxErr)
  | Some v => store_APIResponse v r
  end.

End json.

Local Open Scope string_scope.

(** ** The Prometheus client: descriptors, counters, metrics *)

Module prometheus.

Definition name_start (c : ascii) : bool :=
  let n := N_of_ascii c in
  (((65 <=? n) && (n <=? 90)) || ((97 <=? n) && (n <=? 122))
   || (n =? 95) || (n =? 58))%N.

Definition name_char (c : ascii) : bool :=
  let n := N_of_ascii c in
  (name_start c || ((48 <=? n) && (n <=? 57)))%N.

Fixpoint all_chars (p : ascii -> bool) (s : string) : bool :=
  match s with
  | EmptyString => true
  | String c r => p c && all_chars p r
  end.

(** [model.IsValidMetricName]. *)
Definition IsValidMetricName (s : string) : bool :=
  match s with
  | EmptyString => false
  | String c r => name_start c && all_chars name_char r
  end.

(** A descriptor without labels.  [err] is set when the name is not a
    valid metric name; a metric built on such a descriptor cannot be made. *)
Record Desc : Type := mkDesc {
  fqName : string;
  help : string;
  err : bool
}.

Definition BuildFQName (namespace subsystem name : string) : string :=
  match name with
  | EmptyString => EmptyString
  | _ =>
      match namespace, subsystem with
      | String _ _, String _ _ => namespace ++ "_" ++ subsystem ++ "_" ++ name
      | String _ _, EmptyString => namespace ++ "_" ++ name
      | EmptyString, String _ _ => subsystem ++ "_" ++ name
      | EmptyString, EmptyString => name
      end
  end.

Definition NewDesc (fqName help : string) : Desc :=
  mkDesc fqName help (negb (IsValidMetricName fqName)).

Record CounterOpts : Type := mkCounterOpts {
  Namespace : string;
  Subsystem : string;
  Name : string;
  Help : string
}.

(** A counter: its descriptor and the number of [Inc] calls so far. *)
Record Counter : Type := mkCounter {
  counter_desc : Desc;
  counter_value : N
}.

Definition NewCounter (opts : CounterOpts) : Counter :=
  mkCounter
    (NewDesc (BuildFQName (Namespace opts) (Subsystem opts) (Name opts)) (Help opts))
    0%N.

Definition Inc (c : Counter) : Counter :=
  mkCounter (counter_desc c) (counter_value c + 1)%N.

Inductive ValueType : Type := CounterValue | GaugeValue | UntypedValue.

End prometheus.

(** ** net/http and io: what [http.Get] hands back to its caller

    The exporter sees the network only through the two results of
    [http.Get] and through [io.ReadAll(resp.Body)].  The model starts there:
    a [Response] is the value [http.Get] returns, not the message the peer
    put on the wire.  net/http has then already followed the redirects, and
    the body is the one that reads from [resp.Body], which net/http leaves
    empty for a response of status 1xx, 204 or 304 whatever the peer sent. *)

Module http.

(** [time.Duration]: nanoseconds. *)
Definition Duration : Type := Z.
Definition Second : Duration := 1000000000.

Record Client : Type := mkClient {
  Timeout : Duration   (* zero means no timeout *)
}.

Definition DefaultClient : Client := mkClient 0.

(** [*http.Response], as returned: [Body] is what reading [resp.Body] to
    its end gives, [None] when that read fails. *)
Record Response : Type := mkResponse {
  StatusCode : Z;
  Body : option string
}.

(** How the exchange that one call of [Get] starts comes to its end: with
    an error of the transport (connection refused, DNS failure, too many
    redirects), not at all (the peer accepts the connection and never
    answers), or with the response that is returned. *)
Inductive Reply : Type :=
| TransportError
| NeverAnswers
| Answers (r : Response).

(** The upstream as the caller of [Get] meets it at the time of one call:
    for each URL, the end of the exchange. *)
Definition Upstream : Type := string -> Reply.

Inductive GetResult : Type :=
| GetErr                    (* [resp == nil, err != nil] *)
| GetOk (r : Response)      (* [err == nil] *)
| GetHangs.                 (* the call never returns *)

(** [c.Get(uri)]: a client without timeout waits for ever on a peer that
    never answers, a client with one gives up with an error. *)
Definition Client_Get (c : Client) (net : Upstream) (uri : string) : GetResult :=
  match net uri with
  | TransportError => GetErr
  | NeverAnswers => if Z.eqb (Timeout c) 0 then GetHangs else GetErr
  | Answers r => GetOk r
  end.

(** [http.Get] is [DefaultClient.Get]. *)
Definition Get (net : Upstream) (uri : string) : GetResult :=
  Client_Get DefaultClient net uri.

End http.

(** [io.ReadAll(resp.Body)]. *)
Definition io_ReadAll (body : option string) : option string := body.

(** ** The exporter (iqair_exporter.go, lines 30-69) *)

Definition namespace : string := "iqair".

Definition iqAirUp : prometheus.Desc :=
  prometheus.NewDesc (prometheus.BuildFQName namespace "" "up")
    "Was the last scrape of iqAir successful.".
Definition iqAirCO2 : prometheus.Desc :=
  prometheus.NewDesc (prometheus.BuildFQName namespace "" "co2") "CO2 reading.".
Definition iqAirP25 : prometheus.Desc :=
  prometheus.NewDesc (prometheus.BuildFQName namespace "" "p25")
    "p2.5 particulate reading.".
Definition iqAirP10 : prometheus.Desc :=
  prometheus.NewDesc (prometheus.BuildFQName namespace "" "p10")
    "p10 particulate reading.".
Definition iqAirTemp : prometheus.Desc :=
  prometheus.NewDesc (prometheus.BuildFQName namespace "" "temperature")
    "Temperature reading in Celsius.".
Definition iqAirHumidity : prometheus.Desc :=
  prometheus.NewDesc (prometheus.BuildFQName namespace "" "humidity")
    "Humidity reading.".

(** A go-kit logger, as the list of the records logged on it, oldest first. *)
Definition Logger : Type := list string.

Record Exporter : Type := mkExporter {
  URI : string;
  mutex : bool;   (* [sync.RWMutex]: [true] while locked for writing *)
  totalScrapes : prometheus.Counter;
  jsonParseFailures : prometheus.Counter;
  logger : Logger
}.

(** [NewExporter]: the pointer and the error returned, [None] for [nil]. *)
Definition NewExporter (uri : string) (timeout : http.Duration) (logger : Logger)
  : option Exporter * option string :=
  (Some {|
     URI := uri;
     mutex := false;
     totalScrapes := prometheus.NewCounter {|
       prometheus.Namespace := namespace;
       prometheus.Subsystem := "";
       prometheus.Name := "exporter_scrapes_total";
       prometheus.Help := "Current total iqAir scrapes."
     |};
     jsonParseFailures := prometheus.NewCounter {|
       prometheus.Namespace := namespace;
       prometheus.Subsystem := "";
       prometheus.Name := "exporter_json_parse_failures_total";
       prometheus.Help := "Number of errors while parsing JSON."
     |};
     logger := logger
   |}, None).

(** What is sent on the channel of [Collect]: one of the exporter's two
    counters (the counter itself, not a copy of its value), or a constant
    metric made by [MustNewConstMetric]. *)
Inductive CounterRef : Type := RefTotalScrapes | RefJsonParseFailures.

Inductive Metric : Type :=
| CounterMetric (c : CounterRef)
| ConstMetric (d : prometheus.Desc) (t : prometheus.ValueType) (v : float64).

Definition counter_of (c : CounterRef) (e : Exporter) : prometheus.Counter :=
  match c with
  | RefTotalScrapes => totalScrapes e
  | RefJsonParseFailures => jsonParseFailures e
  end.

(** The sample a reader of the channel gets from a metric, the counters
    being read in the exporter [e]. *)
Definition sample (e : Exporter) (m : Metric) : string * prometheus.ValueType * float64 :=
  match m with
  | CounterMetric c =>
      (prometheus.fqName (prometheus.counter_desc (counter_of c e)),
       prometheus.CounterValue,
       Float64.of_int (Z.of_N (prometheus.counter_value (counter_of c e))))
  | ConstMetric d t v => (prometheus.fqName d, t, v)
  end.

(** ** Running Go code: state, panics, calls that never return *)

Record State : Type := mkState {
  exporter : Exporter;        (* the object [e] points to *)
  channel : list Metric       (* what was sent on [ch], oldest first *)
}.

Inductive Panic : Type :=
| NilDereference       (* invalid memory address or nil pointer dereference *)
| InvalidDesc          (* [MustNewConstMetric] on a descriptor with an error *)
| UnlockOfUnlocked.    (* [Unlock] of a mutex that is not locked *)

Inductive Outcome (A : Type) : Type :=
| Returns (a : A)
| Panics (p : Panic)
| Hangs.
Arguments Returns {A} a.
Arguments Panics {A} p.
Arguments Hangs {A}.

Definition M (A : Type) : Type := State -> Outcome A * State.

Definition ret {A : Type} (a : A) : M A := fun s => (Returns a, s).

Definition bind {A B : Type} (m : M A) (k : A -> M B) : M B :=
  fun s =>
    match m s with
    | (Returns a, s') => k a s'
    | (Panics p, s') => (Panics p, s')
    | (Hangs, s') => (Hangs, s')
    end.

Declare Scope go_scope.
Delimit Scope go_scope with go.
Notation "x <- m ;; k" := (bind m (fun x => k))
  (at level 61, m at next level, right associativity) : go_scope.
Notation "m ;; k" := (bind m (fun _ => k))
  (at level 61, right associativity) : go_scope.
Local Open Scope go_scope.

Definition panic {A : Type} (p : Panic) : M A := fun s => (Panics p, s).
Definition hang {A : Type} : M A := fun s => (Hangs, s).

(** [defer d; body]: [d] runs when [body] returns and when it panics. *)
Definition defer {A : Type} (d : M unit) (body : M A) : M A :=
  fun s =>
    match body s with
    | (Hangs, s') => (Hangs, s')
    | (o, s') =>
        match d s' with
        | (Returns _, s'') => (o, s'')
        | (Panics p, s'') => (Panics p, s'')
        | (Hangs, s'') => (Hangs, s'')
        end
    end.

Definition update (f : Exporter -> Exporter) : M unit :=
  fun s => (Returns tt, mkState (f (exporter s)) (channel s)).

(** [ch <- m]. *)
Definition send (m : Metric) : M unit :=
  fun s => (Returns tt, mkState (exporter s) (List.app (channel s) [m])).

(** [e.mutex.Lock()]: a caller that finds the mutex locked waits. *)
Definition Lock : M unit :=
  fun s =>
    if mutex (exporter s) then (Hangs, s)
    else update (fun e => mkExporter (URI e) true (totalScrapes e)
                            (jsonParseFailures e) (logger e)) s.

Definition Unlock : M unit :=
  fun s =>
    if mutex (exporter s)
    then update (fun e => mkExporter (URI e) false (totalScrapes e)
                            (jsonParseFailures e) (logger e)) s
    else (Panics UnlockOfUnlocked, s).

(** [e.totalScrapes.Inc()] and [e.jsonParseFailures.Inc()]. *)
Definition Inc (c : CounterRef) : M unit :=
  update (fun e =>
    match c with
    | RefTotalScrapes =>
        mkExporter (URI e) (mutex e) (prometheus.Inc (totalScrapes e))
          (jsonParseFailures e) (logger e)
    | RefJsonParseFailures =>
        mkExporter (URI e) (mutex e) (totalScrapes e)
          (prometheus.Inc (jsonParseFailures e)) (logger e)
    end).

(** [e.logger.Log(msg, v)]: the record is added to the logger; the error
    [Log] returns is dropped by the caller. *)
Definition Log (msg : string) : M unit :=
  update (fun e => mkExporter (URI e) (mutex e) (totalScrapes e)
                     (jsonParseFailures e) (List.app (logger e) [msg])).

(** [prometheus.MustNewConstMetric(desc, valueType, value)]. *)
Definition MustNewConstMetric (d : prometheus.Desc) (t : prometheus.ValueType)
  (v : float64) : M Metric :=
  if prometheus.err d then panic InvalidDesc else ret (ConstMetric d t v).

(** [result.f] for a pointer [result]. *)
Definition field {A : Type} (f : APIData -> A) (result : option APIData) : M A :=
  match result with
  | Some d => ret (f d)
  | None => panic NilDereference
  end.

Definition get_URI : M string := fun s => (Returns (URI (exporter s)), s).

(** ** Describe, scrape and Collect (iqair_exporter.go, lines 71-134) *)

(** [Describe]: the descriptors sent on its channel [ch], after those
    already there. *)
Definition Describe (e : Exporter) (ch : list prometheus.Desc) : list prometheus.Desc :=
  List.app ch [iqAirUp;
               prometheus.counter_desc (totalScrapes e);
               prometheus.counter_desc (jsonParseFailures e)].

Definition scrape (net : http.Upstream) : M (float64 * option APIData) :=
  Inc RefTotalScrapes ;;
  uri <- get_URI ;;
  match http.Get net uri with
  | http.GetHangs => hang
  | http.GetErr =>
      Log "failed to scrape: %v" ;;
      ret (Float64.const_0, None)
  | http.GetOk resp =>
      (* defer resp.Body.Close() : no effect on the exporter *)
      match io_ReadAll (http.Body resp) with
      | None =>
          Log "failed to read body: %v" ;;
          ret (Float64.const_0, None)
      | Some body =>
          let parsed := APIResponse_zero in
          Log "parsed: %v" ;;
          match json.Unmarshal body parsed with
          | (_, Some _) =>
              Log "failed to parse body: %v" ;;
              ret (Float64.const_0, None)
          | (parsed, None) =>
              ret (Float64.const_1, Some (Current parsed))
          end
      end
  end.

Definition Collect (net : http.Upstream) : M unit :=
  Lock ;;
  defer Unlock
    (r <- scrape net ;;
     let '(up, result) := r in
     send (CounterMetric RefTotalScrapes) ;;
     send (CounterMetric RefJsonParseFailures) ;;
     (m <- MustNewConstMetric iqAirUp prometheus.GaugeValue up ;; send m) ;;
     (x <- field CO2 result ;;
      m <- MustNewConstMetric iqAirCO2 prometheus.GaugeValue (Float64.of_int x) ;;
      send m) ;;
     (x <- field P25 result ;;
      m <- MustNewConstMetric iqAirP25 prometheus.GaugeValue (Float64.of_int x) ;;
      send m) ;;
     (x <- field P10 result ;;
      m <- MustNewConstMetric iqAirP10 prometheus.GaugeValue (Float64.of_int x) ;;
      send m) ;;
     (x <- field Temperature result ;;
      m <- MustNewConstMetric iqAirTemp prometheus.GaugeValue x ;;
      send m) ;;
     (x <- field Humidity result ;;
      m <- MustNewConstMetric iqAirHumidity prometheus.GaugeValue (Float64.of_int x) ;;
      send m)).

(** One call of [Collect] on a fresh channel. *)
Definition run_Collect (net : http.Upstream) (e : Exporter) : Outcome unit * State :=
  Collect net (mkState e []).

(** The state [Collect] leaves and the metrics it sends, path by path. *)

Definition after_scrape (e : Exporter) (logged : list string) : Exporter :=
  mkExporter (URI e) false (prometheus.Inc (totalScrapes e))
    (jsonParseFailures e) (List.app (logger e) logged).

Definition health (up : float64) : list Metric :=
  [CounterMetric RefTotalScrapes;
   CounterMetric RefJsonParseFailures;
   ConstMetric iqAirUp prometheus.GaugeValue up].

Definition readings (d : APIData) : list Metric :=
  [ConstMetric iqAirCO2 prometheus.GaugeValue (Float64.of_int (CO2 d));
   ConstMetric iqAirP25 prometheus.GaugeValue (Float64.of_int (P25 d));
   ConstMetric iqAirP10 prometheus.GaugeValue (Float64.of_int (P10 d));
   ConstMetric iqAirTemp prometheus.GaugeValue (Temperature d);
   ConstMetric iqAirHumidity prometheus.GaugeValue (Float64.of_int (Humidity d))].

(** The gauges among the metrics sent, by name. *)
Fixpoint gauges (ch : list Metric) : list (string * float64) :=
  match ch with
  | [] => []
  | ConstMetric d prometheus.GaugeValue v :: ch' =>
      (prometheus.fqName d, v) :: gauges ch'
  | _ :: ch' => gauges ch'
  end.

(** ** Valid envelopes

    The envelope of the device API, in the words of the specification: a
    JSON object with a nested object, [current], that holds the reading
    under the keys [co], [p2], [p1], [tp] and [hm], an integer for each but
    [tp].  The members may come in any order and among others. *)

(** The value of the one member of [ms] named [name], names compared as
    the decoder compares them; [None] when there is none or more than one. *)
Definition member (name : string) (ms : list (string * json.value))
  : option json.value :=
  match filter (fun kv => json.equal_fold name (fst kv)) ms with
  | [kv] => Some (snd kv)
  | _ => None
  end.

(** The integer of a member that is an integer literal, one with neither
    fraction nor exponent part. *)
Definition integer_member (name : string) (ms : list (string * json.value))
  : option Z :=
  match member name ms with
  | Some (json.JNumber d) =>
      match strconv.frac_len d, strconv.exp d with
      | O, None =>
          Some (if strconv.neg d then - strconv.digits d else strconv.digits d)
      | _, _ => None
      end
  | _ => None
  end.

(** The literal of a member that is a number. *)
Definition number_member (name : string) (ms : list (string * json.value))
  : option strconv.decimal :=
  match member name ms with
  | Some (json.JNumber d) => Some d
  | _ => None
  end.

(** The five numeric fields of a valid envelope, [None] for any other
    value. *)
Definition valid_envelope (v : json.value)
  : option (Z * Z * Z * strconv.decimal * Z) :=
  match v with
  | json.JObject ms =>
      match member "current" ms with
      | Some (json.JObject fs) =>
          match integer_member "co" fs, integer_member "p2" fs,
                integer_member "p1" fs, number_member "tp" fs,
                integer_member "hm" fs with
          | Some co, Some p2, Some p1, Some tp, Some hm =>
              Some (co, p2, p1, tp, hm)
          | _, _, _, _, _ => None
          end
      | _ => None
      end
  | _ => None
  end.

(** Every member of [ms] named [name] has the value [v]. *)
Definition agrees (name : string) (v : json.value)
  (ms : list (string * json.value)) : Prop :=
  forall k v', In (k, v') ms -> json.equal_fold name k = true -> v' = v.

(** The exporter [main] builds (line 156), for a sample URI. *)
Definition sample_exporter : Exporter :=
  match NewExporter "http://airvisual.local/node" (10 * http.Second) [] with
  | (Some e, _) => e
  | (None, _) => mkExporter "" false (prometheus.mkCounter iqAirUp 0)
                   (prometheus.mkCounter iqAirUp 0) []
  end.

(** Upstreams used as test doubles. *)
Definition unreachable : http.Upstream := fun _ => http.TransportError.
Definition silent : http.Upstream := fun _ => http.NeverAnswers.
Definition serving (status : Z) (body : string) : http.Upstream :=
  fun _ => http.Answers (http.mkResponse status (Some body)).

(** [text s] is [s] with each apostrophe replaced by a double quote, to
    write JSON texts legibly. *)
Fixpoint text (s : string) : string :=
  match s with
  | EmptyString => EmptyString
  | String c r => String (if Ascii.eqb c "'" then "034"%char else c) (text r)
  end.

Definition example_body : string :=
  text "{'current':{'co':410,'p2':5,'p1':12,'tp':21.5,'hm':40}}".

(** A valid envelope with its members in another order, keys in another
    letter case and members the exporter does not know. *)
Definition shuffled_body : string :=
  text "{'status':'ok','Current':{'hm':40,'tp':-1.25e1,'ts':'now','p1':12,'CO':410,'p2':5,'vt':null}}".

Definition big_co_body : string :=
  text "{'current':{'co':9007199254740993,'p2':5,'p1':12,'tp':21.5,'hm':40}}".

(** The scrape fully succeeded, in the words of the specification: a
    2xx retrieval and a successful decode. *)
Definition fully_succeeded (net : http.Upstream) (e : Exporter) : Prop :=
  exists status body parsed,
    net (URI e) = http.Answers (http.mkResponse status (Some body))
    /\ 200 <= status < 300
    /\ json.Unmarshal body APIResponse_zero = (parsed, None).

(** What the code requires instead: a response of any status whose body
    was read and decoded. *)
Definition fetched_and_decoded (net : http.Upstream) (e : Exporter)
  (parsed : APIResponse) : Prop :=
  exists status body,
    net (URI e) = http.Answers (http.mkResponse status (Some body))
    /\ json.Unmarshal body APIResponse_zero = (parsed, None).

(** A reading is published as valid: [up] is sent with value one. *)
Definition published_valid (s : State) : Prop :=
  In ("iqair_up", Float64.const_1) (gauges (channel s)).

(** ** Overlapping calls of Collect

    To follow several goroutines through [Collect], its body is cut into
    the commands below, one per call that touches the exporter, the channel
    or the network.  [program] lists the commands one call runs, given how
    its GET ends; lemma [program_refines_Collect] shows that running the
    list from start to end is the same as running [Collect]. *)

Inductive Cmd : Type :=
| CLock                             (* e.mutex.Lock() *)
| CUnlock                           (* the deferred e.mutex.Unlock() *)
| CInc (c : CounterRef)             (* a counter's Inc() *)
| CGetStart                         (* http.Get: the request leaves *)
| CGetEnd (g : http.GetResult)      (* http.Get returns, if ever *)
| CLog (msg : string)               (* e.logger.Log(...) *)
| CSend (m : Metric)                (* ch <- m *)
| CNil.                             (* result.f with result == nil *)

Definition exec (c : Cmd) : M unit :=
  match c with
  | CLock => Lock
  | CUnlock => Unlock
  | CInc r => Inc r
  | CGetStart => ret tt
  | CGetEnd http.GetHangs => hang
  | CGetEnd _ => ret tt
  | CLog msg => Log msg
  | CSend (CounterMetric r) => send (CounterMetric r)
  | CSend (ConstMetric d t v) => m <- MustNewConstMetric d t v ;; send m
  | CNil => panic NilDereference
  end.

Definition publish (up : float64) (result : option APIData) : list Cmd :=
  List.app (map CSend (health up))
    match result with
    | Some d => map CSend (readings d)
    | None => [CNil]
    end.

Definition after_get (g : http.GetResult) : list Cmd :=
  match g with
  | http.GetHangs => []
  | http.GetErr => CLog "failed to scrape: %v" :: publish Float64.const_0 None
  | http.GetOk resp =>
      match io_ReadAll (http.Body resp) with
      | None => CLog "failed to read body: %v" :: publish Float64.const_0 None
      | Some body =>
          CLog "parsed: %v" ::
          match json.Unmarshal body APIResponse_zero with
          | (_, Some _) =>
              CLog "failed to parse body: %v" :: publish Float64.const_0 None
          | (parsed, None) => publish Float64.const_1 (Some (Current parsed))
          end
      end
  end.

Definition body_of (g : http.GetResult) : list Cmd :=
  CInc RefTotalScrapes :: CGetStart :: CGetEnd g :: after_get g.

Definition program (g : http.GetResult) : list Cmd :=
  CLock :: List.app (body_of g) [CUnlock].

Definition is_unlock (c : Cmd) : bool :=
  match c with CUnlock => true | _ => false end.

(** What is left to run once a command has panicked: the deferred calls. *)
Definition deferred (k : list Cmd) : list Cmd := filter is_unlock k.

(** One goroutine running a command list from start to end; once a
    command has panicked only the deferred calls are run. *)
Fixpoint run_cmds (k : list Cmd) (failure : option Panic) (s : State)
  : Outcome unit * State :=
  match k with
  | [] => (match failure with Some p => Panics p | None => Returns tt end, s)
  | c :: k' =>
      match failure, is_unlock c with
      | Some _, false => run_cmds k' failure s
      | _, _ =>
          match exec c s with
          | (Returns _, s') => run_cmds k' failure s'
          | (Panics p, s') => run_cmds k' (Some p) s'
          | (Hangs, s') => (Hangs, s')
          end
      end
  end.

(** A goroutine inside [Collect]: the commands it has still to run, the
    channel it was given, and the panic it is unwinding from, if any. *)
Record Thread : Type := mkThread {
  todo : list Cmd;
  chan : list Metric;
  failure : option Panic
}.

(** The exporter shared by all goroutines, the goroutines, and the
    commands run so far, each with the index of its goroutine. *)
Record Config : Type := mkConfig {
  shared : Exporter;
  threads : list Thread;
  trace : list (nat * Cmd)
}.

Fixpoint replace {A : Type} (i : nat) (x : A) (l : list A) : list A :=
  match l, i with
  | [], _ => []
  | _ :: l', O => x :: l'
  | y :: l', S i' => y :: replace i' x l'
  end.

(** Goroutine [i] runs its next command.  [None]: it has finished, or its
    next command does not return in this configuration (a [Lock] while the
    mutex is held, a GET that is never answered). *)
Definition step (i : nat) (cfg : Config) : option Config :=
  match nth_error (threads cfg) i with
  | None => None
  | Some th =>
      match todo th with
      | [] => None
      | c :: k =>
          match exec c (mkState (shared cfg) (chan th)) with
          | (Returns _, s') =>
              Some (mkConfig (exporter s')
                      (replace i (mkThread k (channel s') (failure th)) (threads cfg))
                      (List.app (trace cfg) [(i, c)]))
          | (Panics p, s') =>
              Some (mkConfig (exporter s')
                      (replace i (mkThread (deferred k) (channel s') (Some p))
                         (threads cfg))
                      (List.app (trace cfg) [(i, c)]))
          | (Hangs, _) => None
          end
      end
  end.

(** A schedule names the goroutine to run at each turn; a goroutine that
    cannot move loses its turn. *)
Fixpoint run (sched : list nat) (cfg : Config) : Config :=
  match sched with
  | [] => cfg
  | i :: sched' =>
      run sched' match step i cfg with
                 | Some cfg' => cfg'
                 | None => cfg
                 end
  end.

(** Goroutines entering [Collect] on the exporter [e], one for each entry
    of [gets], which tells how its GET will end. *)
Definition start (e : Exporter) (gets : list http.GetResult) : Config :=
  mkConfig e (map (fun g => mkThread (program g) [] None) gets) [].

(** A goroutine is inside the critical section from the return of its
    [Lock] to the return of its [Unlock]. *)
Definition inside_todo (k : list Cmd) : bool :=
  match k with
  | [] => false
  | CLock :: _ => false
  | _ => true
  end.

Definition inside (th : Thread) : bool := inside_todo (todo th).

(** At most one goroutine is inside. *)
Definition mutual_exclusion (cfg : Config) : Prop :=
  forall i j thi thj,
    nth_error (threads cfg) i = Some thi ->
    nth_error (threads cfg) j = Some thj ->
    inside thi = true -> inside thj = true -> i = j.

(** While a goroutine is inside, no other goroutine can move. *)
Definition others_wait (cfg : Config) : Prop :=
  forall i j thi,
    nth_error (threads cfg) i = Some thi ->
    inside thi = true -> j <> i -> step j cfg = None.

(** When no goroutine is inside, one that is about to lock can move. *)
Definition can_enter (cfg : Config) : Prop :=
  forall j thj k,
    nth_error (threads cfg) j = Some thj ->
    todo thj = CLock :: k ->
    (forall i thi, nth_error (threads cfg) i = Some thi -> inside thi = false) ->
    step j cfg <> None.

(** From any command of goroutine [i] other than its [Unlock], and until
    its [Unlock], every command in the trace is a command of [i]. *)
Definition no_interleaving (tr : list (nat * Cmd)) : Prop :=
  forall pre i a mid j b post,
    tr = List.app pre ((i, a) :: List.app mid ((j, b) :: post)) ->
    a <> CUnlock -> ~ In (i, CUnlock) mid -> j = i.

(** The holder of the mutex after a trace, [None] when the trace is not
    one a mutex allows. *)
Definition next_owner (o : option (option nat)) (ev : nat * Cmd)
  : option (option nat) :=
  match o with
  | None => None
  | Some cur =>
      match snd ev, cur with
      | CLock, None => Some (Some (fst ev))
      | CLock, Some _ => None
      | _, None => None
      | CUnlock, Some j => if Nat.eqb j (fst ev) then Some None else None
      | _, Some j => if Nat.eqb j (fst ev) then Some cur else None
      end
  end.

Definition owner_after (tr : list (nat * Cmd)) : option (option nat) :=
  fold_left next_owner tr (Some None).

(** Goroutines calling [Collect] on the exporter [e] at the same time, one
    for each entry of [nets], the upstream as its GET will find it. *)
Definition overlapping (e : Exporter) (nets : list http.Upstream) : Config :=
  start e (map (fun net => http.Get net (URI e)) nets).

(** The outcome a goroutine has ended with. *)
Definition outcome (th : Thread) : Outcome unit :=
  match failure th with Some p => Panics p | None => Returns tt end.

(** Two overlapping calls, the first answered with [{}], the second not
    reached, and a scheduler that gives each its turn in alternation. *)
Definition two_callers : list http.Upstream :=
  [serving 200 "{}"; unreachable].

Fixpoint alternate (n : nat) : list nat :=
  match n with
  | O => []
  | S n' => 0%nat :: 1%nat :: alternate n'
  end.

Definition plain (c : Cmd) : bool :=
  match c with CLock | CUnlock => false | _ => true end.

(** The shapes the command list of a goroutine goes through. *)
Inductive shape : list Cmd -> Prop :=
| shape_entering body : forallb plain body = true ->
    shape (CLock :: List.app body [CUnlock])
| shape_inside body : forallb plain body = true ->
    shape (List.app body [CUnlock])
| shape_left : shape [].

(** The invariant of the scheduler. *)
Record invariant (cfg : Config) (o : option nat) : Prop := mkInvariant {
  inv_trace : owner_after (trace cfg) = Some o;
  inv_mutex : mutex (shared cfg) = match o with Some _ => true | None => false end;
  inv_shape : forall i th, nth_error (threads cfg) i = Some th -> shape (todo th);
  inv_owner : forall i th, nth_error (threads cfg) i = Some th ->
                           (inside th = true <-> o = Some i);
  inv_holder : forall i, o = Some i ->
                         exists th, nth_error (threads cfg) i = Some th
}.

(** ** Calls one after the other *)

(** The exporter after one call of [Collect] for each upstream of [nets],
    in order, each call on a channel of its own. *)
Fixpoint Collects (nets : list http.Upstream) (e : Exporter) : Exporter :=
  match nets with
  | [] => e
  | net :: nets' => Collects nets' (exporter (snd (run_Collect net e)))
  end.

(** Two calls of [Get] that end the same way, with responses that differ
    at most in the status code. *)
Definition same_answer (r1 r2 : http.Reply) : Prop :=
  match r1, r2 with
  | http.TransportError, http.TransportError => True
  | http.NeverAnswers, http.NeverAnswers => True
  | http.Answers a, http.Answers b => http.Body a = http.Body b
  | _, _ => False
  end.

(** ** Which documents decode *)

(** A value an [int] field takes: [null], or a number that [ParseInt]
    accepts; likewise for the [float64] field. *)
Definition int_ok (v : json.value) : bool :=
  match v with
  | json.JNull => true
  | json.JNumber n =>
      match strconv.ParseInt n with Some _ => true | None => false end
  | _ => false
  end.

Definition float_ok (v : json.value) : bool :=
  match v with
  | json.JNull => true
  | json.JNumber n =>
      match strconv.ParseFloat n with Some _ => true | None => false end
  | _ => false
  end.

(** A member of the inner object that decodes without error: its key is
    not one of the five tags of [APIData], or its value fits the field. *)
Definition member_ok (kv : string * json.value) : bool :=
  let (k, v) := kv in
  if json.equal_fold "co" k then int_ok v
  else if json.equal_fold "p2" k then int_ok v
  else if json.equal_fold "p1" k then int_ok v
  else if json.equal_fold "tp" k then float_ok v
  else if json.equal_fold "hm" k then int_ok v
  else true.

Definition current_ok (v : json.value) : bool :=
  match v with
  | json.JNull => true
  | json.JObject fs => forallb member_ok fs
  | _ => false
  end.

Definition top_ok (kv : string * json.value) : bool :=
  let (k, v) := kv in
  if json.equal_fold "current" k then current_ok v else true.

Definition document_ok (v : json.value) : bool :=
  match v with
  | json.JNull => true
  | json.JObject ms => forallb top_ok ms
  | _ => false
  end.

(** No member of [ms] has the key [name], in any letter case. *)
Definition lacks (name : string) (ms : list (string * json.value)) : bool :=
  forallb (fun kv => negb (json.equal_fold name (fst kv))) ms.

(** ** What a goroutine delivers *)

Definition with_mutex (b : bool) (e : Exporter) : Exporter :=
  mkExporter (URI e) b (totalScrapes e) (jsonParseFailures e) (logger e).

(** The outcome and the channel a goroutine ends with when it runs alone
    from where it is, on an exporter whose mutex it holds if it is inside
    and nobody holds if it is not. *)
Definition delivers (e : Exporter) (th : Thread) : Outcome unit * list Metric :=
  let r := run_cmds (todo th) (failure th)
             (mkState (with_mutex (inside th) e) (chan th)) in
  (fst r, channel (snd r)).

(** The goroutines of [start e gets] deliver what they would at the start. *)
Definition delivery_kept (e : Exporter) (gets : list http.GetResult)
  (cfg : Config) : Prop :=
  forall i th,
    nth_error (threads cfg) i = Some th ->
    exists g,
      nth_error gets i = Some g
      /\ delivers e th = delivers e (mkThread (program g) [] None)
      /\ (failure th <> None -> forallb is_unlock (todo th) = true).

(** ** What one call of Collect does, by the way its GET ends *)

Section CollectPaths.

Variable net : http.Upstream.
Variable e : Exporter.
Hypothesis unlocked : mutex e = false.

Ltac go_step :=
  cbv beta iota zeta delta
    [run_Collect Collect scrape bind defer ret Lock Unlock update Inc Log
     get_URI send panic hang field http.Get http.Client_Get io_ReadAll
     http.DefaultClient];
  cbn [exporter channel URI mutex totalScrapes jsonParseFailures logger
       http.Body http.Timeout Z.eqb].

Ltac run_collect := go_step; rewrite unlocked; go_step.

Lemma Collect_transport_error :
  net (URI e) = http.TransportError ->
  run_Collect net e
  = (Panics NilDereference,
     mkState (after_scrape e ["failed to scrape: %v"]) (health Float64.const_0)).
Proof.
  intros Hnet. run_collect. rewrite Hnet. reflexivity.
Qed.

Lemma Collect_never_answers :
  net (URI e) = http.NeverAnswers ->
  run_Collect net e
  = (Hangs,
     mkState (mkExporter (URI e) true (prometheus.Inc (totalScrapes e))
                (jsonParseFailures e) (logger e)) []).
Proof.
  intros Hnet. run_collect. rewrite Hnet. reflexivity.
Qed.

Lemma Collect_read_error status :
  net (URI e) = http.Answers (http.mkResponse status None) ->
  run_Collect net e
  = (Panics NilDereference,
     mkState (after_scrape e ["failed to read body: %v"]) (health Float64.const_0)).
Proof.
  intros Hnet. run_collect. rewrite Hnet. reflexivity.
Qed.

Lemma Collect_decode_error status body parsed err :
  net (URI e) = http.Answers (http.mkResponse status (Some body)) ->
  json.Unmarshal body APIResponse_zero = (parsed, Some err) ->
  run_Collect net e
  = (Panics NilDereference,
     mkState (after_scrape e ["parsed: %v"; "failed to parse body: %v"])
       (health Float64.const_0)).
Proof.
  intros Hnet Hdec. run_collect. rewrite Hnet. go_step.
  rewrite Hdec. go_step. unfold MustNewConstMetric. cbn.
  unfold after_scrape. rewrite <- app_assoc. reflexivity.
Qed.

Lemma Collect_decoded status body parsed :
  net (URI e) = http.Answers (http.mkResponse status (Some body)) ->
  json.Unmarshal body APIResponse_zero = (parsed, None) ->
  run_Collect net e
  = (Returns tt,
     mkState (after_scrape e ["parsed: %v"])
       (List.app (health Float64.const_1) (readings (Current parsed)))).
Proof.
  intros Hnet Hdec. run_collect. rewrite Hnet. go_step.
  rewrite Hdec. reflexivity.
Qed.

End CollectPaths.

(** ** Facts about binary64 conversion *)

Section Float64Facts.

Local Open Scope Z_scope.

Lemma digits2_pos_size p : digits2_pos p = Pos.size p.
Proof. induction p; simpl; congruence. Qed.

Lemma digits2_pos_bounds p :
  2 ^ (Zpos (digits2_pos p) - 1) <= Zpos p < 2 ^ Zpos (digits2_pos p).
Proof.
  rewrite digits2_pos_size. split.
  - pose proof (Pos.size_le p) as H.
    assert (Hs : Zpos (2 ^ Pos.size p) <= Zpos p~0) by exact H.
    rewrite Pos2Z.inj_pow in Hs.
    replace (Zpos (Pos.size p)) with (Z.succ (Zpos (Pos.size p) - 1)) in Hs by lia.
    rewrite Z.pow_succ_r in Hs by lia. lia.
  - pose proof (Pos.size_gt p) as H.
    assert (Hs : Zpos p < Zpos (2 ^ Pos.size p)) by exact H.
    now rewrite Pos2Z.inj_pow in Hs.
Qed.

Lemma iter_xO_digits d m :
  digits2_pos (Pos.iter xO m d) = (digits2_pos m + d)%positive.
Proof.
  induction d using Pos.peano_ind.
  - simpl. lia.
  - rewrite Pos.iter_succ. simpl. rewrite IHd. lia.
Qed.

Lemma iter_xO_value d m :
  Zpos (Pos.iter xO m d) = Zpos m * 2 ^ Zpos d.
Proof.
  induction d using Pos.peano_ind.
  - simpl. lia.
  - rewrite Pos.iter_succ, Pos2Z.inj_succ, Z.pow_succ_r by lia.
    rewrite Pos2Z.inj_xO, IHd. lia.
Qed.

Lemma round_aux_canonical s m e :
  fexp 53 1024 (Zpos (digits2_pos m) + e) = e -> e <= 971 ->
  binary_round_aux 53 1024 s (Zpos m) e loc_Exact = S754_finite s m e.
Proof.
  intros Hc He.
  assert (Hs : shr_fexp 53 1024 (Zpos m) e loc_Exact
               = ({| shr_m := Zpos m; shr_r := false; shr_s := false |}, e)).
  { unfold shr_fexp. cbn [Zdigits2]. rewrite Hc, Z.sub_diag. reflexivity. }
  unfold binary_round_aux. rewrite Hs.
  cbn [shr_m loc_of_shr_record round_nearest_even]. rewrite Hs. cbn [shr_m].
  destruct (Z.leb_spec e (1024 - 53)); [reflexivity | lia].
Qed.

Lemma binary_round_small s p :
  Zpos p < 2 ^ 53 ->
  exists m e, binary_round 53 1024 s p 0 = S754_finite s m e
              /\ e <= 0 /\ Zpos m = Zpos p * 2 ^ (- e).
Proof.
  intros Hp. pose proof (digits2_pos_bounds p) as [Hlo _].
  set (d := digits2_pos p) in *.
  assert (Hd : Zpos d <= 53).
  { destruct (Z.le_gt_cases (Zpos d) 53) as [H|H]; [exact H|].
    assert (2 ^ 53 <= 2 ^ (Zpos d - 1)) by (apply Z.pow_le_mono_r; lia). lia. }
  unfold binary_round, shl_align. fold d.
  assert (Hf : fexp 53 1024 (Zpos d + 0) = Zpos d - 53) by (unfold fexp, emin; lia).
  rewrite Hf. destruct (Zpos d - 53 - 0) as [|k|k] eqn:Hk; try lia.
  - exists p, 0. split; [|split; [lia|simpl; lia]].
    apply round_aux_canonical; [|lia]. fold d. unfold fexp, emin. lia.
  - exists (Pos.iter xO p k), (Zpos d - 53). split; [|split; [lia|]].
    + apply round_aux_canonical; [|lia]. rewrite iter_xO_digits. fold d.
      unfold fexp, emin. lia.
    + rewrite iter_xO_value. f_equal. f_equal. lia.
Qed.

Lemma binary_round_exact s p :
  Zpos p <= 2 ^ 53 ->
  Float64.represents (binary_round 53 1024 s p 0)
    (inject_Z (if s then Zneg p else Zpos p)).
Proof.
  intros Hp. destruct (Z.eq_dec (Zpos p) (2 ^ 53)) as [He|Hne].
  - assert (p = 9007199254740992%positive) as -> by (apply Pos2Z.inj; exact He).
    destruct s; vm_compute; reflexivity.
  - destruct (binary_round_small s p) as (m & e & Hr & He & Hm); [lia|].
    rewrite Hr. unfold Float64.represents, Float64.to_Q.
    destruct e as [|k|k]; try lia.
    + simpl in Hm. assert (m = p) as -> by lia. reflexivity.
    + unfold Qeq, inject_Z. cbn [Qnum Qden].
      rewrite Pos2Z.inj_pow. change (- Zneg k) with (Zpos k) in Hm.
      destruct s.
      * rewrite <- !Pos2Z.opp_pos, Hm. lia.
      * rewrite Hm. lia.
Qed.

(** An integer of magnitude at most 2^53 converts to binary64 exactly. *)
Lemma of_int_exact n :
  Z.abs n <= 2 ^ 53 -> Float64.represents (Float64.of_int n) (inject_Z n).
Proof.
  intros Hn. destruct n as [|p|p].
  - reflexivity.
  - apply (binary_round_exact false p). lia.
  - apply (binary_round_exact true p). lia.
Qed.

(** ** Literals whose value is a binary64 number *)

Lemma iter_pos_iter {A : Type} (f : A -> A) n : forall x,
  iter_pos f n x = Pos.iter f x n.
Proof.
  induction n as [n IH|n IH|]; intros x; cbn [iter_pos Pos.iter].
  - rewrite !IH, !Pos.iter_swap. reflexivity.
  - rewrite !IH. reflexivity.
  - reflexivity.
Qed.

(** Shifting out zero bits loses nothing. *)
Lemma shr_zero_bits n : forall m,
  iter_pos shr_1 n
    {| shr_m := Zpos (Pos.iter xO m n); shr_r := false; shr_s := false |}
  = {| shr_m := Zpos m; shr_r := false; shr_s := false |}.
Proof.
  intros m. rewrite iter_pos_iter.
  induction n as [|n IH] using Pos.peano_ind.
  - reflexivity.
  - rewrite Pos.iter_succ, <- Pos.iter_swap, Pos.iter_succ. cbn [shr_1 orb].
    exact IH.
Qed.

(** A mantissa that is a canonical one followed by zero bits rounds to the
    canonical one. *)
Lemma round_aux_shifted s mf ef q e :
  fexp 53 1024 (Zpos (digits2_pos mf) + ef) = ef -> ef <= 971 -> e <= ef ->
  Zpos q = Zpos mf * 2 ^ (ef - e) ->
  binary_round_aux 53 1024 s (Zpos q) e loc_Exact = S754_finite s mf ef.
Proof.
  intros Hc He Hle Hq.
  destruct (ef - e) as [|n|n] eqn:Hn; try lia.
  - assert (q = mf) as -> by (apply Pos2Z.inj; rewrite Hq; cbn; lia).
    assert (e = ef) as -> by lia. apply round_aux_canonical; assumption.
  - assert (q = Pos.iter xO mf n) as ->
      by (apply Pos2Z.inj; rewrite Hq, iter_xO_value; reflexivity).
    assert (Hs : shr_fexp 53 1024 (Zpos (Pos.iter xO mf n)) e loc_Exact
                 = ({| shr_m := Zpos mf; shr_r := false; shr_s := false |}, ef)).
    { unfold shr_fexp. cbn [Zdigits2 shr_record_of_loc].
      rewrite iter_xO_digits, Pos2Z.inj_add.
      replace (Zpos (digits2_pos mf) + Zpos n + e)
        with (Zpos (digits2_pos mf) + ef) by lia.
      rewrite Hc, Hn. cbn [shr]. rewrite shr_zero_bits. f_equal. lia. }
    assert (Hs' : shr_fexp 53 1024 (Zpos mf) ef loc_Exact
                  = ({| shr_m := Zpos mf; shr_r := false; shr_s := false |}, ef)).
    { unfold shr_fexp. cbn [Zdigits2]. rewrite Hc, Z.sub_diag. reflexivity. }
    unfold binary_round_aux. rewrite Hs.
    cbn [shr_m loc_of_shr_record round_nearest_even]. rewrite Hs'. cbn [shr_m].
    destruct (Z.leb_spec ef (1024 - 53)); [reflexivity | lia].
Qed.

Lemma scaled_bounds p a :
  0 <= a ->
  2 ^ (Zpos (digits2_pos p) - 1 + a) <= Zpos p * 2 ^ a
  < 2 ^ (Zpos (digits2_pos p) + a).
Proof.
  intros Ha. pose proof (digits2_pos_bounds p) as [Hlo Hhi].
  assert (H2 : 0 < 2 ^ a) by (apply Z.pow_pos_nonneg; lia).
  rewrite !Z.pow_add_r by lia. split.
  - apply Z.mul_le_mono_nonneg_r; lia.
  - apply Z.mul_lt_mono_pos_r; lia.
Qed.

(** Two mantissas of the same value have the same magnitude. *)
Lemma same_magnitude v a m b :
  0 <= a -> 0 <= b -> Zpos v * 2 ^ a = Zpos m * 2 ^ b ->
  Zpos (digits2_pos v) + a = Zpos (digits2_pos m) + b.
Proof.
  intros Ha Hb H.
  pose proof (scaled_bounds v a Ha) as [V1 V2].
  pose proof (scaled_bounds m b Hb) as [M1 M2].
  rewrite H in V1, V2.
  assert (L1 : Zpos (digits2_pos v) - 1 + a < Zpos (digits2_pos m) + b)
    by (apply (Z.pow_lt_mono_r_iff 2); lia).
  assert (L2 : Zpos (digits2_pos m) - 1 + b < Zpos (digits2_pos v) + a)
    by (apply (Z.pow_lt_mono_r_iff 2); lia).
  lia.
Qed.

Lemma bounded_canonical m e :
  bounded 53 1024 m e = true ->
  fexp 53 1024 (Zpos (digits2_pos m) + e) = e /\ e <= 971.
Proof.
  unfold bounded, canonical_mantissa. intros H. apply andb_prop in H.
  destruct H as [Hc He]. apply Z.eqb_eq in Hc. apply Z.leb_le in He. lia.
Qed.

(** A literal without fraction part whose value is a binary64 number
    converts to that number. *)
Lemma of_decimal_integer s p E mf ef :
  0 <= E -> bounded 53 1024 mf ef = true ->
  10 ^ E * Zpos p * 2 ^ Z.max (- ef) 0 = Zpos mf * 2 ^ Z.max ef 0 ->
  Float64.of_decimal s (Zpos p) E = S754_finite s mf ef.
Proof.
  intros HE Hb Hv. apply bounded_canonical in Hb. destruct Hb as [Hc He].
  assert (Hpos : 0 < 10 ^ E * Zpos p).
  { apply Z.mul_pos_pos; [apply Z.pow_pos_nonneg|]; lia. }
  assert (Hod : Float64.of_decimal s (Zpos p) E
                = match 10 ^ E * Zpos p with
                  | Zpos v => binary_round 53 1024 s v 0
                  | _ => S754_nan
                  end).
  { unfold Float64.of_decimal. destruct E; try reflexivity. lia. }
  rewrite Hod. destruct (10 ^ E * Zpos p) as [|v|v] eqn:Ev; try lia.
  pose proof (same_magnitude v (Z.max (- ef) 0) mf (Z.max ef 0)
                ltac:(lia) ltac:(lia) Hv) as Hmag.
  unfold binary_round, shl_align.
  replace (Zpos (digits2_pos v) + 0) with (Zpos (digits2_pos mf) + ef) by lia.
  rewrite Hc. destruct (ef - 0) as [|k|k] eqn:Hk.
  - apply round_aux_shifted; try assumption; [lia|].
    assert (ef = 0) as -> by lia.
    change (2 ^ Z.max (- 0) 0) with 1 in Hv. change (2 ^ Z.max 0 0) with 1 in Hv.
    change (2 ^ (0 - 0)) with 1. lia.
  - apply round_aux_shifted; try assumption; [lia|].
    rewrite (Z.max_r (- ef) 0), (Z.max_l ef 0) in Hv by lia. rewrite Hk.
    replace ef with (Zpos k) in Hv by lia. change (2 ^ 0) with 1 in Hv. lia.
  - assert (Pos.iter xO v k = mf) as ->;
      [|apply round_aux_canonical; assumption].
    apply Pos2Z.inj. rewrite iter_xO_value.
    rewrite (Z.max_l (- ef) 0), (Z.max_r ef 0) in Hv by lia.
    replace (- ef) with (Zpos k) in Hv by lia. change (2 ^ 0) with 1 in Hv. lia.
Qed.

Lemma fexp_le a b : a <= b -> fexp 53 1024 a <= fexp 53 1024 b.
Proof. unfold fexp, emin. lia. Qed.

(** A quotient that is a binary64 number is computed without remainder. *)
Lemma div_core_exact p pd mf ef :
  bounded 53 1024 mf ef = true ->
  Zpos p * 2 ^ Z.max (- ef) 0 = Zpos mf * 2 ^ Z.max ef 0 * Zpos pd ->
  exists e',
    e' <= ef
    /\ SFdiv_core_binary 53 1024 (Zpos p) 0 (Zpos pd) 0
       = (Zpos mf * 2 ^ (ef - e'), e', loc_Exact).
Proof.
  intros Hb Hv. apply bounded_canonical in Hb. destruct Hb as [Hc He].
  set (a := Z.max (- ef) 0) in *. set (b := Z.max ef 0) in *.
  assert (Ha : 0 <= a) by lia. assert (Hb : 0 <= b) by lia.
  assert (Hab : ef = b - a) by lia.
  pose proof (scaled_bounds p a Ha) as [P1 _].
  pose proof (scaled_bounds mf b Hb) as [_ M2].
  pose proof (digits2_pos_bounds pd) as [_ D2].
  set (d1 := Zpos (digits2_pos p)) in *.
  set (d2 := Zpos (digits2_pos pd)) in *.
  set (dm := Zpos (digits2_pos mf)) in *.
  assert (Hmag : d1 - d2 <= dm + ef).
  { assert (H : 2 ^ (d1 - 1 + a) < 2 ^ (dm + b + d2)).
    { rewrite (Z.pow_add_r 2 (dm + b) d2) by lia.
      apply Z.le_lt_trans with (1 := P1). rewrite Hv.
      assert (0 <= Zpos mf * 2 ^ b)
        by (apply Z.mul_nonneg_nonneg; [lia|apply Z.pow_nonneg; lia]).
      apply Z.mul_lt_mono_nonneg; lia. }
    apply Z.pow_lt_mono_r_iff in H; lia. }
  set (e' := Z.min (fexp 53 1024 (d1 + 0 - (d2 + 0))) (0 - 0)).
  assert (He' : e' <= ef /\ e' <= 0 /\ a <= - e').
  { pose proof (fexp_le (d1 + 0 - (d2 + 0)) (dm + ef) ltac:(lia)) as H.
    rewrite Hc in H. unfold e'. lia. }
  destruct He' as (E1 & E2 & E3).
  exists e'. split; [exact E1|].
  assert (Hm : match 0 - 0 - e' with
               | Zpos _ => Z.shiftl (Zpos p) (0 - 0 - e')
               | Z0 => Zpos p
               | Zneg _ => 0
               end = Zpos mf * 2 ^ (ef - e') * Zpos pd).
  { assert (Hs : Zpos p * 2 ^ (- e') = Zpos mf * 2 ^ (ef - e') * Zpos pd).
    { replace (- e') with (a + (- e' - a)) by lia.
      replace (ef - e') with (b + (- e' - a)) by lia.
      rewrite !Z.pow_add_r by lia.
      rewrite Z.mul_assoc, Hv. ring. }
    destruct (0 - 0 - e') as [|n|n] eqn:Hn; try lia.
    - replace (- e') with 0 in Hs by lia. rewrite <- Hs. change (2 ^ 0) with 1. lia.
    - rewrite Z.shiftl_mul_pow2 by lia. rewrite <- Hs. f_equal. f_equal. lia. }
  unfold SFdiv_core_binary. cbn [Zdigits2]. fold d1 d2 e'. cbv zeta.
  rewrite Hm.
  assert (Hdiv : Z.div_eucl (Zpos mf * 2 ^ (ef - e') * Zpos pd) (Zpos pd)
                 = (Zpos mf * 2 ^ (ef - e'), 0)).
  { pose proof (Z.div_mul (Zpos mf * 2 ^ (ef - e')) (Zpos pd) ltac:(lia)) as Hq.
    pose proof (Z.mod_mul (Zpos mf * 2 ^ (ef - e')) (Zpos pd) ltac:(lia)) as Hr.
    unfold Z.div in Hq. unfold Z.modulo in Hr.
    destruct (Z.div_eucl (Zpos mf * 2 ^ (ef - e') * Zpos pd) (Zpos pd)) as [q r].
    congruence. }
  rewrite Hdiv. f_equal.
  unfold new_location, new_location_even, new_location_odd.
  destruct (Z.even (Zpos pd)); reflexivity.
Qed.

(** A literal with a fraction part whose value is a binary64 number
    converts to that number. *)
Lemma of_decimal_fraction s p k mf ef :
  bounded 53 1024 mf ef = true ->
  Zpos p * 2 ^ Z.max (- ef) 0 = Zpos mf * 2 ^ Z.max ef 0 * Zpos (10 ^ k) ->
  Float64.of_decimal s (Zpos p) (Zneg k) = S754_finite s mf ef.
Proof.
  intros Hb Hv.
  destruct (div_core_exact p (10 ^ k) mf ef Hb Hv) as (e' & He' & Hdiv).
  apply bounded_canonical in Hb. destruct Hb as [Hc He].
  unfold Float64.of_decimal, Float64.prec, Float64.emax.
  assert (Hd : Z.pow_pos 10 k = Zpos (10 ^ k)).
  { rewrite Pos2Z.inj_pow. reflexivity. }
  rewrite Hd, Hdiv.
  assert (Hq : 0 < Zpos mf * 2 ^ (ef - e')).
  { apply Z.mul_pos_pos; [lia|]. apply Z.pow_pos_nonneg; lia. }
  destruct (Zpos mf * 2 ^ (ef - e')) as [|q|q] eqn:Eq; try lia.
  apply round_aux_shifted; try assumption. rewrite <- Eq. reflexivity.
Qed.

Ltac pow_atoms :=
  repeat match goal with
         | H : context [Zpos (?a ^ ?k)] |- _ => rewrite (Pos2Z.inj_pow a k) in H
         | |- context [Zpos (?a ^ ?k)] => rewrite (Pos2Z.inj_pow a k)
         end;
  repeat match goal with
         | H : context [Z.pow_pos ?a ?k] |- _ =>
             change (Z.pow_pos a k) with (a ^ Zpos k) in H
         | |- context [Z.pow_pos ?a ?k] => change (Z.pow_pos a k) with (a ^ Zpos k)
         end.

Lemma signed_eq (sf sd : bool) (m p X Y : Z) :
  0 < m -> 0 < p -> 0 < X -> 0 < Y ->
  (if sf then - m else m) * X = (if sd then - p else p) * Y ->
  sf = sd /\ m * X = p * Y.
Proof.
  intros Hm Hp HX HY H.
  assert (0 < m * X) by (apply Z.mul_pos_pos; assumption).
  assert (0 < p * Y) by (apply Z.mul_pos_pos; assumption).
  destruct sf, sd; split; try reflexivity; lia.
Qed.

(** What it takes for a finite value to be the value of a literal. *)
Lemma represents_literal sf mf ef (sd : bool) p E :
  Float64.represents (S754_finite sf mf ef)
    match E with
    | Zneg k => (if sd then - Zpos p else Zpos p) # (10 ^ k)
    | e => inject_Z ((if sd then - Zpos p else Zpos p) * 10 ^ e)
    end ->
  sf = sd
  /\ match E with
     | Zneg k =>
         Zpos p * 2 ^ Z.max (- ef) 0 = Zpos mf * 2 ^ Z.max ef 0 * Zpos (10 ^ k)
     | e => 10 ^ e * Zpos p * 2 ^ Z.max (- ef) 0 = Zpos mf * 2 ^ Z.max ef 0
     end.
Proof.
  unfold Float64.represents, Float64.to_Q, Qeq, inject_Z.
  assert (P2 : forall j, 0 < 2 ^ Zpos j) by (intros; apply Z.pow_pos_nonneg; lia).
  assert (P10 : forall j, 0 < 10 ^ Zpos j) by (intros; apply Z.pow_pos_nonneg; lia).
  assert (Hs : forall s : bool, (if s then Zneg mf else Zpos mf)
                         = (if s then - Zpos mf else Zpos mf)) by (intros []; reflexivity).
  destruct ef as [|j|j], E as [|e|k]; cbn [Qnum Qden]; intros H;
    try change (Z.max (- 0) 0) with 0; try change (Z.max 0 0) with 0;
    try change (Z.max (- Zpos j) 0) with 0;
    try change (Z.max (Zpos j) 0) with (Zpos j);
    try change (Z.max (- Zneg j) 0) with (Zpos j);
    try change (Z.max (Zneg j) 0) with 0;
    change (2 ^ 0) with 1; change (10 ^ 0) with 1 in *;
    pow_atoms;
    try pose proof (P2 j); try pose proof (P10 e); try pose proof (P10 k);
    try rewrite <- (Z.mul_assoc (if sf then Zneg mf else Zpos mf)) in H;
    rewrite <- ?(Z.mul_assoc (if sd then - Zpos p else Zpos p)) in H;
    rewrite <- ?(Z.mul_assoc (if sf then Zneg mf else Zpos mf)) in H;
    rewrite Hs in H;
    (apply signed_eq in H;
     [destruct H as [Hsign Hval]; split; [exact Hsign|lia]
     |try lia; repeat apply Z.mul_pos_pos; lia ..]).
Qed.

Lemma float_value_exact d f :
  Float64.is_finite (strconv.float_value d) = true ->
  Float64.valid f = true -> Float64.represents f (strconv.value d) ->
  Float64.represents (strconv.float_value d) (strconv.value d).
Proof.
  intros Hfin Hval Hrep.
  unfold strconv.float_value in *.
  unfold strconv.value in *. cbv zeta in *.
  destruct (strconv.digits d) as [|p|p] eqn:Hd.
  - destruct (strconv.neg d), (strconv.scale d); reflexivity.
  - assert (Heq : Float64.of_decimal (strconv.neg d) (Zpos p) (strconv.scale d) = f);
      [|rewrite Heq; exact Hrep].
    destruct f as [sf|sf| |sf mf ef]; try contradiction Hrep.
    + exfalso. unfold Float64.represents, Float64.to_Q, Qeq, inject_Z in Hrep.
      destruct (strconv.neg d), (strconv.scale d) as [|e|k]; cbn [Qnum Qden] in Hrep;
        try pose proof (Z.pow_pos_nonneg 10 (Zpos e) ltac:(lia) ltac:(lia));
        try change (10 ^ 0) with 1 in Hrep; nia.
    + cbn [Float64.valid valid_binary] in Hval.
      destruct (strconv.scale d) as [|e|k].
      * apply (represents_literal sf mf ef (strconv.neg d) p 0) in Hrep.
        destruct Hrep as [-> Hv].
        apply of_decimal_integer; [lia|exact Hval|exact Hv].
      * apply (represents_literal sf mf ef (strconv.neg d) p (Zpos e)) in Hrep.
        destruct Hrep as [-> Hv].
        apply of_decimal_integer; [lia|exact Hval|exact Hv].
      * apply (represents_literal sf mf ef (strconv.neg d) p (Zneg k)) in Hrep.
        destruct Hrep as [-> Hv].
        apply of_decimal_fraction; [exact Hval|exact Hv].
  - discriminate Hfin.
Qed.

End Float64Facts.

(** ** The parser never runs out of fuel *)

Section Fuel.

Import json.
Local Open Scope nat_scope.

Lemma skip_space_length s : String.length (skip_space s) <= String.length s.
Proof.
  induction s as [|c s IH]; [apply le_n|].
  cbn [skip_space]. destruct (is_space c); cbn [String.length]; lia.
Qed.

Lemma skip_space_cons s c r :
  skip_space s = String c r -> String.length r < String.length s.
Proof.
  intros H. pose proof (skip_space_length s) as Hl. rewrite H in Hl.
  cbn [String.length] in Hl. lia.
Qed.

Lemma read_digits_length s acc n v m r :
  read_digits s acc n = (v, m, r) -> String.length r <= String.length s.
Proof.
  revert acc n. induction s as [|c s IH]; intros acc n H; cbn [read_digits] in H.
  - injection H as _ _ <-. apply le_n.
  - destruct (digit_of c).
    + apply IH in H. cbn [String.length]. lia.
    + injection H as _ _ <-. apply le_n.
Qed.

Lemma read_digits1_length s acc v m r :
  read_digits1 s acc = Some (v, m, r) -> String.length r <= String.length s.
Proof.
  unfold read_digits1. destruct (read_digits s acc 0) as [[v' m'] r'] eqn:Hd.
  destruct m'; [discriminate|]. intros H. injection H as _ _ <-.
  exact (read_digits_length _ _ _ _ _ _ Hd).
Qed.

Lemma read_int_part_length s v r :
  read_int_part s = Some (v, r) -> String.length r < String.length s.
Proof.
  destruct s as [|c s]; [discriminate|]. cbn [read_int_part String.length].
  destruct (digit_of c) as [d|]; [|discriminate].
  destruct d as [|p|p].
  - intros H. injection H as _ <-. lia.
  - destruct (read_digits s (Zpos p) 1) as [[v' m] r'] eqn:Hd.
    intros H. injection H as _ <-. apply read_digits_length in Hd. lia.
  - destruct (read_digits s (Zneg p) 1) as [[v' m] r'] eqn:Hd.
    intros H. injection H as _ <-. apply read_digits_length in Hd. lia.
Qed.

Lemma read_frac_part_length acc s v m r :
  read_frac_part acc s = Some (v, m, r) -> String.length r <= String.length s.
Proof.
  unfold read_frac_part.
  destruct s as [|c s]; [intros H; injection H as _ _ <-; apply le_n|].
  destruct c as [[] [] [] [] [] [] [] []];
    try (intros H; injection H as _ _ <-; apply le_n).
  intros H. apply read_digits1_length in H. cbn [String.length]. lia.
Qed.

Lemma read_sign_length s neg r :
  read_sign s = (neg, r) -> String.length r <= String.length s.
Proof.
  unfold read_sign. destruct s as [|c s]; [intros H; injection H as _ <-; apply le_n|].
  destruct c as [[] [] [] [] [] [] [] []]; intros H; injection H as _ <-;
    cbn [String.length]; lia.
Qed.

Lemma read_minus_length s neg r :
  read_minus s = (neg, r) -> String.length r <= String.length s.
Proof.
  unfold read_minus. destruct s as [|c s]; [intros H; injection H as _ <-; apply le_n|].
  destruct c as [[] [] [] [] [] [] [] []]; intros H; injection H as _ <-;
    cbn [String.length]; lia.
Qed.

Lemma read_exp_part_length s e r :
  read_exp_part s = Some (e, r) -> String.length r <= String.length s.
Proof.
  unfold read_exp_part.
  destruct s as [|c s]; [intros H; injection H as _ <-; apply le_n|].
  destruct (Ascii.eqb c "e" || Ascii.eqb c "E")%bool;
    [|intros H; injection H as _ <-; apply le_n].
  destruct (read_sign s) as [neg r1] eqn:Hs.
  destruct (read_digits1 r1 0) as [[[v m] r2]|] eqn:Hd; [|discriminate].
  intros H. injection H as _ <-.
  apply read_sign_length in Hs. apply read_digits1_length in Hd.
  cbn [String.length]. lia.
Qed.

Lemma parse_number_length s n r :
  parse_number s = Some (n, r) -> String.length r < String.length s.
Proof.
  unfold parse_number. destruct (read_minus s) as [neg s1] eqn:Hm.
  destruct (read_int_part s1) as [[i s2]|] eqn:Hi; [|discriminate].
  destruct (read_frac_part i s2) as [[[m fl] s3]|] eqn:Hf; [|discriminate].
  destruct (read_exp_part s3) as [[e s4]|] eqn:He; [|discriminate].
  intros H. injection H as _ <-.
  apply read_minus_length in Hm. apply read_int_part_length in Hi.
  apply read_frac_part_length in Hf. apply read_exp_part_length in He. lia.
Qed.

Lemma expect_length lit s r :
  expect lit s = Some r -> String.length r <= String.length s.
Proof.
  revert s. induction lit as [|a lit IH]; intros s H; cbn [expect] in H.
  - injection H as <-. apply le_n.
  - destruct s as [|b s]; [discriminate|].
    destruct (Ascii.eqb a b); [|discriminate].
    apply IH in H. cbn [String.length]. lia.
Qed.

Lemma literal_length {A : Type} lit (v : A) s a r :
  literal lit v s = Ok a r -> String.length r <= String.length s.
Proof.
  unfold literal. destruct (expect lit s) as [r'|] eqn:He; [|discriminate].
  intros H. injection H as _ <-. exact (expect_length _ _ _ He).
Qed.

Lemma literal_fuel {A : Type} lit (v : A) s : literal lit v s <> OutOfFuel.
Proof. unfold literal. destruct (expect lit s); discriminate. Qed.


Lemma peek_length c s r :
  peek c s = Some r -> String.length s = S (String.length r).
Proof.
  destruct s as [|c' s]; [discriminate|]. cbn [peek].
  destruct (Ascii.eqb c c'); [|discriminate].
  intros H. injection H as <-. reflexivity.
Qed.

Lemma parse_string_length_aux n :
  forall s t r, String.length s < n ->
    parse_string s = Some (t, r) -> String.length r < String.length s.
Proof.
  induction n as [|n IH]; intros s t r Hn H; [lia|].
  destruct s as [|c s]; [discriminate H|]. cbn [parse_string] in H.
  cbn [String.length] in Hn |- *.
  destruct (Ascii.eqb c "034"); [injection H as _ <-; lia|].
  destruct (Ascii.eqb c "\").
  - destruct s as [|e s1]; [discriminate H|]. cbn [String.length] in Hn |- *.
    destruct (Ascii.eqb e "u").
    + destruct s1 as [|h1 [|h2 [|h3 [|h4 s2]]]]; try discriminate H.
      cbn [String.length] in Hn |- *.
      destruct (hex4 h1 h2 h3 h4); [|discriminate H].
      destruct (parse_string s2) as [[t' r']|] eqn:Hp; [|discriminate H].
      injection H as _ <-. apply IH in Hp; lia.
    + destruct (simple_escape e); [|discriminate H].
      destruct (parse_string s1) as [[t' r']|] eqn:Hp; [|discriminate H].
      injection H as _ <-. apply IH in Hp; lia.
  - destruct (N_of_ascii c <? 32)%N; [discriminate H|].
    destruct (parse_string s) as [[t' r']|] eqn:Hp; [|discriminate H].
    injection H as _ <-. apply IH in Hp; lia.
Qed.

Lemma parse_string_length s t r :
  parse_string s = Some (t, r) -> String.length r < String.length s.
Proof. apply (parse_string_length_aux (S (String.length s))). lia. Qed.

(** What is left after a value, a list of elements or a list of members
    is shorter than what was there before. *)
Lemma parse_length fuel :
  (forall depth s v r, parse_value fuel depth s = Ok v r ->
                 String.length r < String.length s)
  /\ (forall depth s vs r, parse_elements fuel depth s = Ok vs r ->
                     String.length r < String.length s)
  /\ (forall depth s ms r, parse_members fuel depth s = Ok ms r ->
                     String.length r < String.length s).
Proof.
  induction fuel as [|fuel (IHv & IHe & IHm)];
    [repeat split; intros; discriminate|].
  split; [|split].
  - intros depth s v r H. cbn [parse_value] in H.
    pose proof (skip_space_length s) as Hs.
    destruct (skip_space s) as [|c s1]; [discriminate H|].
    cbn [String.length] in Hs.
    pose proof (skip_space_length s1) as Hs1.
    destruct (Ascii.eqb c "{").
    { destruct (max_depth <=? depth)%N; [discriminate H|].
      destruct (peek "}" (skip_space s1)) as [r'|] eqn:Hp.
      - injection H as _ <-. apply peek_length in Hp. lia.
      - destruct (parse_members fuel (N.succ depth) (skip_space s1))
          as [ms r'| |] eqn:Hm;
          try discriminate H.
        injection H as _ <-. apply IHm in Hm. lia. }
    destruct (Ascii.eqb c "[").
    { destruct (max_depth <=? depth)%N; [discriminate H|].
      destruct (peek "]" (skip_space s1)) as [r'|] eqn:Hp.
      - injection H as _ <-. apply peek_length in Hp. lia.
      - destruct (parse_elements fuel (N.succ depth) (skip_space s1))
          as [vs r'| |] eqn:He;
          try discriminate H.
        injection H as _ <-. apply IHe in He. lia. }
    destruct (Ascii.eqb c "034").
    { destruct (parse_string s1) as [[t r']|] eqn:Hp; [|discriminate H].
      injection H as _ <-. apply parse_string_length in Hp. lia. }
    destruct (Ascii.eqb c "t"); [apply literal_length in H; lia|].
    destruct (Ascii.eqb c "f"); [apply literal_length in H; lia|].
    destruct (Ascii.eqb c "n"); [apply literal_length in H; lia|].
    destruct (parse_number (String c s1)) as [[n r']|] eqn:Hp; [|discriminate H].
    injection H as _ <-. apply parse_number_length in Hp.
    cbn [String.length] in Hp. lia.
  - intros depth s vs r H. cbn [parse_elements] in H.
    destruct (parse_value fuel depth s) as [v r1| |] eqn:Hv; try discriminate H.
    apply IHv in Hv. pose proof (skip_space_length r1) as Hs.
    destruct (peek "," (skip_space r1)) as [r2|] eqn:Hp.
    + apply peek_length in Hp.
      destruct (parse_elements fuel depth r2) as [vs' r3| |] eqn:He;
        try discriminate H.
      injection H as _ <-. apply IHe in He. lia.
    + destruct (peek "]" (skip_space r1)) as [r2|] eqn:Hq; [|discriminate H].
      injection H as _ <-. apply peek_length in Hq. lia.
  - intros depth s ms r H. cbn [parse_members] in H.
    pose proof (skip_space_length s) as Hs.
    destruct (peek "034" (skip_space s)) as [r0|] eqn:Hp0; [|discriminate H].
    apply peek_length in Hp0.
    destruct (parse_string r0) as [[k r1]|] eqn:Hk; [|discriminate H].
    apply parse_string_length in Hk.
    pose proof (skip_space_length r1) as Hs1.
    destruct (peek ":" (skip_space r1)) as [r2|] eqn:Hp1; [|discriminate H].
    apply peek_length in Hp1.
    destruct (parse_value fuel depth r2) as [v r3| |] eqn:Hv; try discriminate H.
    apply IHv in Hv. pose proof (skip_space_length r3) as Hs3.
    destruct (peek "," (skip_space r3)) as [r4|] eqn:Hp3.
    + apply peek_length in Hp3.
      destruct (parse_members fuel depth r4) as [ms' r5| |] eqn:Hm;
        try discriminate H.
      injection H as _ <-. apply IHm in Hm. lia.
    + destruct (peek "}" (skip_space r3)) as [r4|] eqn:Hq; [|discriminate H].
      injection H as _ <-. apply peek_length in Hq. lia.
Qed.

(** With two units of fuel for each byte left, no parser gives up. *)
Lemma parse_fuel fuel :
  (forall depth s, 2 * String.length s + 1 <= fuel ->
                    parse_value fuel depth s <> OutOfFuel)
  /\ (forall depth s, 2 * String.length s + 2 <= fuel ->
                      parse_elements fuel depth s <> OutOfFuel)
  /\ (forall depth s, 2 * String.length s + 2 <= fuel ->
                      parse_members fuel depth s <> OutOfFuel).
Proof.
  induction fuel as [|fuel (IHv & IHe & IHm)];
    [repeat split; intros; lia|].
  destruct (parse_length fuel) as (Lv & Le & Lm).
  split; [|split].
  - intros depth s Hf. cbn [parse_value].
    pose proof (skip_space_length s) as Hs.
    destruct (skip_space s) as [|c s1]; [discriminate|].
    cbn [String.length] in Hs.
    pose proof (skip_space_length s1) as Hs1.
    destruct (Ascii.eqb c "{").
    { destruct (max_depth <=? depth)%N; [discriminate|].
      destruct (peek "}" (skip_space s1)); [discriminate|].
      assert (Hm : parse_members fuel (N.succ depth) (skip_space s1) <> OutOfFuel)
        by (apply IHm; lia).
      destruct (parse_members fuel (N.succ depth) (skip_space s1)); congruence. }
    destruct (Ascii.eqb c "[").
    { destruct (max_depth <=? depth)%N; [discriminate|].
      destruct (peek "]" (skip_space s1)); [discriminate|].
      assert (He : parse_elements fuel (N.succ depth) (skip_space s1) <> OutOfFuel)
        by (apply IHe; lia).
      destruct (parse_elements fuel (N.succ depth) (skip_space s1)); congruence. }
    destruct (Ascii.eqb c "034").
    { destruct (parse_string s1) as [[t r']|]; discriminate. }
    destruct (Ascii.eqb c "t"); [apply literal_fuel|].
    destruct (Ascii.eqb c "f"); [apply literal_fuel|].
    destruct (Ascii.eqb c "n"); [apply literal_fuel|].
    destruct (parse_number (String c s1)) as [[n r']|]; discriminate.
  - intros depth s Hf. cbn [parse_elements].
    assert (Hv : parse_value fuel depth s <> OutOfFuel) by (apply IHv; lia).
    destruct (parse_value fuel depth s) as [v r1| |] eqn:Hpv;
      [|discriminate|congruence].
    apply Lv in Hpv. pose proof (skip_space_length r1) as Hs.
    destruct (peek "," (skip_space r1)) as [r2|] eqn:Hp.
    + apply peek_length in Hp.
      assert (He : parse_elements fuel depth r2 <> OutOfFuel) by (apply IHe; lia).
      destruct (parse_elements fuel depth r2); congruence.
    + destruct (peek "]" (skip_space r1)); discriminate.
  - intros depth s Hf. cbn [parse_members].
    pose proof (skip_space_length s) as Hs.
    destruct (peek "034" (skip_space s)) as [r0|] eqn:Hp0; [|discriminate].
    apply peek_length in Hp0.
    destruct (parse_string r0) as [[k r1]|] eqn:Hk; [|discriminate].
    apply parse_string_length in Hk.
    pose proof (skip_space_length r1) as Hs1.
    destruct (peek ":" (skip_space r1)) as [r2|] eqn:Hp1; [|discriminate].
    apply peek_length in Hp1.
    assert (Hv : parse_value fuel depth r2 <> OutOfFuel) by (apply IHv; lia).
    destruct (parse_value fuel depth r2) as [v r3| |] eqn:Hpv;
      [|discriminate|congruence].
    apply Lv in Hpv. pose proof (skip_space_length r3) as Hs3.
    destruct (peek "," (skip_space r3)) as [r4|] eqn:Hp3.
    + apply peek_length in Hp3.
      assert (Hm : parse_members fuel depth r4 <> OutOfFuel) by (apply IHm; lia).
      destruct (parse_members fuel depth r4); congruence.
    + destruct (peek "}" (skip_space r3)); discriminate.
Qed.

(** The fuel [parse] gives is enough for every input. *)
Lemma parse_never_out_of_fuel data :
  parse_value (fuel_for data) 0 data <> OutOfFuel.
Proof.
  apply (proj1 (parse_fuel (fuel_for data))). unfold fuel_for. lia.
Qed.

End Fuel.

(** ** Facts about the decoder *)

Lemma ParseInt_of_Z z :
  (- 2 ^ 63 <= z < 2 ^ 63)%Z -> strconv.ParseInt (strconv.of_Z z) = Some z.
Proof.
  intros Hz. unfold strconv.ParseInt, strconv.of_Z.
  cbn [strconv.frac_len strconv.exp strconv.neg strconv.digits].
  assert (Hv : (if (z <? 0)%Z then (- Z.abs z)%Z else Z.abs z) = z).
  { destruct (Z.ltb_spec z 0); lia. }
  rewrite Hv.
  destruct (Z.leb_spec (- 2 ^ 63) z); [|lia].
  destruct (Z.ltb_spec z (2 ^ 63)); [|lia].
  reflexivity.
Qed.

Lemma const_1_exact : Float64.represents Float64.const_1 (inject_Z 1).
Proof. reflexivity. Qed.

Lemma Unmarshal_empty_object :
  json.Unmarshal "{}" APIResponse_zero = (APIResponse_zero, None).
Proof. reflexivity. Qed.

Lemma Unmarshal_example_body :
  json.Unmarshal example_body APIResponse_zero
  = (mkAPIResponse
       (mkAPIData 410 5 12 (S754_finite false (43 * 2 ^ 47) (-48)) 40), None).
Proof. vm_compute. reflexivity. Qed.

(** ** Facts about overlapping calls *)

Section Scheduler.

(** Running the commands of [program] in order is running [Collect]. *)
Lemma program_refines_Collect (net : http.Upstream) (e : Exporter) :
  run_cmds (program (http.Get net (URI e))) None (mkState e [])
  = run_Collect net e.
Proof.
  destruct (mutex e) eqn:Hm.
  - unfold run_Collect, Collect, bind, Lock, program. cbn [run_cmds exec is_unlock].
    unfold Lock. cbn [exporter]. rewrite Hm. reflexivity.
  - unfold http.Get, http.Client_Get.
    destruct (net (URI e)) as [| |[status [body|]]] eqn:Hnet.
    + rewrite (Collect_transport_error net e Hm Hnet).
      unfold program, body_of, after_get, publish.
      cbn [run_cmds exec is_unlock List.app map health].
      unfold Lock, Inc, update. cbn [exporter channel mutex]. rewrite Hm.
      reflexivity.
    + rewrite (Collect_never_answers net e Hm Hnet).
      unfold program, body_of, after_get, publish.
      cbn [run_cmds exec is_unlock List.app map health http.Timeout http.DefaultClient Z.eqb].
      unfold Lock, Inc, update. cbn [exporter channel mutex]. rewrite Hm.
      reflexivity.
    + unfold program, body_of, after_get, io_ReadAll. cbn [http.Body].
      destruct (json.Unmarshal body APIResponse_zero) as [parsed [err|]] eqn:Hdec.
      * rewrite (Collect_decode_error net e Hm status body parsed err Hnet Hdec).
        unfold publish.
        cbn [run_cmds exec is_unlock List.app map health].
        unfold Lock, Inc, update. cbn [exporter channel mutex]. rewrite Hm.
        cbn. unfold after_scrape. rewrite <- app_assoc.
        reflexivity.
      * rewrite (Collect_decoded net e Hm status body parsed Hnet Hdec).
        unfold publish.
        cbn [run_cmds exec is_unlock List.app map health readings].
        unfold Lock, Inc, update. cbn [exporter channel mutex]. rewrite Hm.
        reflexivity.
    + rewrite (Collect_read_error net e Hm status Hnet).
      unfold program, body_of, after_get, publish, io_ReadAll.
      cbn [run_cmds exec is_unlock List.app map health http.Body].
      unfold Lock, Inc, update. cbn [exporter channel mutex]. rewrite Hm.
      reflexivity.
Qed.

Lemma nth_error_replace {A : Type} (l : list A) (i j : nat) (x y : A) :
  nth_error (replace i x l) j = Some y ->
  (i = j /\ y = x) \/ (i <> j /\ nth_error l j = Some y).
Proof.
  revert i j. induction l as [|a l IH]; intros i j H.
  - destruct i, j; discriminate H.
  - destruct i as [|i], j as [|j]; cbn in H |- *.
    + injection H as <-. left. split; reflexivity.
    + right. split; [discriminate|exact H].
    + right. split; [discriminate|exact H].
    + destruct (IH i j H) as [[-> ->]|[Hne Hj]].
      * left. split; reflexivity.
      * right. split; [congruence|exact Hj].
Qed.

Lemma nth_error_replace_same {A : Type} (l : list A) (i : nat) (x y : A) :
  nth_error l i = Some y -> nth_error (replace i x l) i = Some x.
Proof.
  revert i. induction l as [|a l IH]; intros [|i] H; try discriminate H.
  - reflexivity.
  - cbn in H |- *. exact (IH i H).
Qed.

Lemma nth_error_replace_other {A : Type} (l : list A) (i j : nat) (x : A) :
  i <> j -> nth_error (replace i x l) j = nth_error l j.
Proof.
  revert i j. induction l as [|a l IH]; intros [|i] [|j] H; try reflexivity.
  - contradiction.
  - cbn. apply IH. congruence.
Qed.

Lemma owner_after_snoc tr ev :
  owner_after (List.app tr [ev]) = next_owner (owner_after tr) ev.
Proof. unfold owner_after. rewrite fold_left_app. reflexivity. Qed.

Lemma next_owner_none tr : fold_left next_owner tr None = None.
Proof. induction tr as [|ev tr IH]; [reflexivity|exact IH]. Qed.

Lemma exec_plain_mutex c s o s' :
  plain c = true -> exec c s = (o, s') ->
  mutex (exporter s') = mutex (exporter s).
Proof.
  intros Hp He. destruct c as [| |r| |g|msg|m|]; try discriminate Hp;
    cbn in He.
  - destruct r; injection He as _ <-; reflexivity.
  - injection He as _ <-; reflexivity.
  - destruct g; injection He as _ <-; reflexivity.
  - injection He as _ <-; reflexivity.
  - destruct m as [r|d t v].
    + injection He as _ <-; reflexivity.
    + unfold bind, MustNewConstMetric in He.
      destruct (prometheus.err d); injection He as _ <-; reflexivity.
  - injection He as _ <-; reflexivity.
Qed.

Lemma forallb_plain_app body c :
  forallb plain (c :: body) = true ->
  plain c = true /\ forallb plain body = true.
Proof. cbn. intros H. apply andb_prop in H. exact H. Qed.

Lemma shape_next c k :
  shape (c :: k) ->
  match c with
  | CLock => exists body, k = List.app body [CUnlock] /\ forallb plain body = true
  | CUnlock => k = []
  | _ => exists body, k = List.app body [CUnlock] /\ forallb plain body = true
  end.
Proof.
  intros H. inversion H as [body Hb Heq|body Hb Heq|].
  - exists body. split; [reflexivity|exact Hb].
  - destruct body as [|c' body]; cbn in Heq.
    + injection Heq as Hc Hk. subst c k. reflexivity.
    + injection Heq as Hc Hk. subst c' k. apply forallb_plain_app in Hb.
      destruct Hb as [Hc Hb].
      destruct c; try discriminate Hc; exists body; (split; [reflexivity|exact Hb]).
Qed.

Lemma inside_body body :
  forallb plain body = true ->
  inside_todo (List.app body [CUnlock]) = true.
Proof.
  destruct body as [|c body]; [reflexivity|].
  intros H. apply forallb_plain_app in H. destruct H as [Hc _].
  destruct c; try discriminate Hc; reflexivity.
Qed.

Lemma deferred_body body :
  forallb plain body = true -> deferred (List.app body [CUnlock]) = [CUnlock].
Proof.
  induction body as [|c body IH]; [reflexivity|].
  intros H. apply forallb_plain_app in H. destruct H as [Hc Hb].
  unfold deferred in *. cbn [List.app filter].
  destruct c; try discriminate Hc; cbn [is_unlock]; exact (IH Hb).
Qed.


Lemma plain_publish up result : forallb plain (publish up result) = true.
Proof. destruct result; reflexivity. Qed.

Lemma plain_body_of g : forallb plain (body_of g) = true.
Proof.
  unfold body_of, after_get. cbn [forallb plain andb].
  destruct g as [|resp|]; cbn [forallb plain andb].
  - apply plain_publish.
  - destruct (io_ReadAll (http.Body resp)) as [body|]; cbn [forallb plain andb].
    + destruct (json.Unmarshal body APIResponse_zero) as [parsed [err|]];
        cbn [forallb plain andb]; apply plain_publish.
    + apply plain_publish.
  - reflexivity.
Qed.

Lemma invariant_start e gets :
  mutex e = false -> invariant (start e gets) None.
Proof.
  intros Hm. split; cbn [start shared threads trace].
  - reflexivity.
  - exact Hm.
  - intros i th Hth. rewrite nth_error_map in Hth.
    destruct (nth_error gets i) as [g|]; [|discriminate Hth].
    injection Hth as <-. cbn [todo]. unfold program.
    apply shape_entering, plain_body_of.
  - intros i th Hth. rewrite nth_error_map in Hth.
    destruct (nth_error gets i) as [g|]; [|discriminate Hth].
    injection Hth as <-. unfold inside. cbn [todo]. unfold program.
    cbn [inside_todo]. split; discriminate.
  - discriminate.
Qed.

(** Goroutine [i] moves: what suffices for the invariant to hold again. *)
Lemma invariant_update cfg o i th e' k' ch' f' o' ev :
  invariant cfg o ->
  nth_error (threads cfg) i = Some th ->
  next_owner (Some o) ev = Some o' ->
  mutex e' = match o' with Some _ => true | None => false end ->
  shape k' ->
  (inside_todo k' = true <-> o' = Some i) ->
  (forall j, j <> i -> (o = Some j <-> o' = Some j)) ->
  invariant
    (mkConfig e' (replace i (mkThread k' ch' f') (threads cfg))
       (List.app (trace cfg) [ev])) o'.
Proof.
  intros [Htr Hmx Hsh Hown Hhold] Hth Hnext Hmx' Hk' Hin Hothers.
  split; cbn [shared threads trace].
  - rewrite owner_after_snoc, Htr. exact Hnext.
  - exact Hmx'.
  - intros j th' Hj. apply nth_error_replace in Hj.
    destruct Hj as [[<- ->]|[Hne Hj]]; [exact Hk'|exact (Hsh j th' Hj)].
  - intros j th' Hj. apply nth_error_replace in Hj.
    destruct Hj as [[<- ->]|[Hne Hj]].
    + exact Hin.
    + rewrite (Hown j th' Hj). apply Hothers. congruence.
  - intros j Hj. destruct (Nat.eq_dec i j) as [<-|Hne].
    + eexists. exact (nth_error_replace_same _ _ _ _ Hth).
    + rewrite (nth_error_replace_other _ _ _ _ Hne).
      apply Hhold. apply Hothers; congruence.
Qed.

Lemma invariant_step cfg o i cfg' :
  invariant cfg o -> step i cfg = Some cfg' -> exists o', invariant cfg' o'.
Proof.
  intros Hinv Hstep. unfold step in Hstep.
  destruct (nth_error (threads cfg) i) as [th|] eqn:Hth; [|discriminate Hstep].
  destruct (todo th) as [|c k] eqn:Htodo; [discriminate Hstep|].
  pose proof (inv_shape cfg o Hinv i th Hth) as Hshape.
  rewrite Htodo in Hshape. apply shape_next in Hshape.
  pose proof (inv_owner cfg o Hinv i th Hth) as Hown.
  unfold inside in Hown. rewrite Htodo in Hown.
  pose proof (inv_mutex cfg o Hinv) as Hmx.
  destruct (plain c) eqn:Hplain.
  - (* a command of the body *)
    assert (Ho : o = Some i).
    { apply Hown. destruct c; try discriminate Hplain; reflexivity. }
    assert (Hk : exists body, k = List.app body [CUnlock]
                              /\ forallb plain body = true).
    { destruct c; try discriminate Hplain; exact Hshape. }
    destruct Hk as (body & -> & Hbody).
    assert (Hnext : next_owner (Some o) (i, c) = Some (Some i)).
    { subst o. destruct c; try discriminate Hplain;
        cbn; rewrite Nat.eqb_refl; reflexivity. }
    destruct (exec c (mkState (shared cfg) (chan th))) as [[a|p|] s'] eqn:Hex;
      [| |discriminate Hstep]; injection Hstep as <-;
      pose proof (exec_plain_mutex c _ _ _ Hplain Hex) as Hsame;
      cbn [exporter] in Hsame; exists (Some i);
      (apply (invariant_update cfg o i th); try assumption;
       [ rewrite Hsame, Hmx, Ho; reflexivity | | | ]).
    + apply shape_inside, Hbody.
    + rewrite (inside_body body Hbody). split; reflexivity.
    + intros j _. rewrite Ho. reflexivity.
    + rewrite (deferred_body body Hbody). apply (shape_inside []). reflexivity.
    + rewrite (deferred_body body Hbody). split; reflexivity.
    + intros j _. rewrite Ho. reflexivity.
  - destruct c; try discriminate Hplain.
    + (* Lock *)
      destruct Hshape as (body & -> & Hbody).
      cbn [exec] in Hstep. unfold Lock, update in Hstep. cbn [exporter] in Hstep.
      destruct (mutex (shared cfg)) eqn:Hlocked; [discriminate Hstep|].
      injection Hstep as <-.
      assert (Ho : o = None) by (destruct o; [discriminate Hmx|reflexivity]).
      exists (Some i). apply (invariant_update cfg o i th); try assumption.
      * subst o. reflexivity.
      * reflexivity.
      * apply shape_inside, Hbody.
      * rewrite (inside_body body Hbody). split; reflexivity.
      * intros j Hne. subst o. split; [discriminate|].
        intros H. injection H as <-. contradiction.
    + (* Unlock *)
      subst k.
      assert (Ho : o = Some i) by (apply Hown; reflexivity).
      cbn [exec] in Hstep. unfold Unlock, update in Hstep. cbn [exporter] in Hstep.
      rewrite Ho in Hmx. rewrite Hmx in Hstep. injection Hstep as <-.
      exists None. apply (invariant_update cfg o i th); try assumption.
      * subst o. cbn. rewrite Nat.eqb_refl. reflexivity.
      * apply shape_left.
      * cbn. split; discriminate.
      * intros j Hne. subst o. split; [|discriminate].
        intros H. injection H as <-. contradiction.
Qed.

Lemma invariant_run sched cfg o :
  invariant cfg o -> exists o', invariant (run sched cfg) o'.
Proof.
  revert cfg o. induction sched as [|i sched IH]; intros cfg o Hinv.
  - exists o. exact Hinv.
  - cbn [run]. destruct (step i cfg) as [cfg'|] eqn:Hstep.
    + destruct (invariant_step cfg o i cfg' Hinv Hstep) as [o' Hinv'].
      exact (IH cfg' o' Hinv').
    + exact (IH cfg o Hinv).
Qed.

Lemma invariant_mutual_exclusion cfg o :
  invariant cfg o -> mutual_exclusion cfg.
Proof.
  intros Hinv i j thi thj Hi Hj Hini Hinj.
  apply (inv_owner cfg o Hinv i thi Hi) in Hini.
  apply (inv_owner cfg o Hinv j thj Hj) in Hinj.
  congruence.
Qed.

Lemma invariant_others_wait cfg o :
  invariant cfg o -> others_wait cfg.
Proof.
  intros Hinv i j thi Hi Hini Hne.
  apply (inv_owner cfg o Hinv i thi Hi) in Hini.
  pose proof (inv_mutex cfg o Hinv) as Hmx. rewrite Hini in Hmx.
  unfold step. destruct (nth_error (threads cfg) j) as [thj|] eqn:Hj; [|reflexivity].
  pose proof (inv_owner cfg o Hinv j thj Hj) as Hown.
  pose proof (inv_shape cfg o Hinv j thj Hj) as Hshape.
  unfold inside in Hown.
  destruct (todo thj) as [|c k]; [reflexivity|].
  destruct (inside_todo (c :: k)) eqn:Hin.
  - assert (o = Some j) by (apply Hown; reflexivity). congruence.
  - destruct c; try discriminate Hin.
    cbn [exec]. unfold Lock. cbn [exporter]. rewrite Hmx. reflexivity.
Qed.

Lemma invariant_can_enter cfg o :
  invariant cfg o -> can_enter cfg.
Proof.
  intros Hinv j thj k Hj Htodo Hnone.
  assert (Ho : o = None).
  { destruct o as [i|]; [|reflexivity].
    destruct (inv_holder cfg (Some i) Hinv i eq_refl) as [thi Hi].
    pose proof (proj2 (inv_owner cfg (Some i) Hinv i thi Hi) eq_refl) as Hin.
    rewrite (Hnone i thi Hi) in Hin. discriminate Hin. }
  pose proof (inv_mutex cfg o Hinv) as Hmx. rewrite Ho in Hmx.
  unfold step. rewrite Hj, Htodo. cbn [exec]. unfold Lock, update.
  cbn [exporter]. rewrite Hmx. discriminate.
Qed.

Lemma owned_stays i mid :
  ~ In (i, CUnlock) mid ->
  fold_left next_owner mid (Some (Some i)) = Some (Some i)
  \/ fold_left next_owner mid (Some (Some i)) = None.
Proof.
  induction mid as [|[j c] mid IH]; intros Hno.
  - left. reflexivity.
  - cbn [fold_left].
    assert (Hstep : next_owner (Some (Some i)) (j, c) = Some (Some i)
                    \/ next_owner (Some (Some i)) (j, c) = None).
    { destruct (Nat.eqb_spec i j) as [<-|Hne].
      - destruct c; cbn; rewrite ?Nat.eqb_refl; auto.
        exfalso. apply Hno. left. reflexivity.
      - destruct c; cbn; destruct (Nat.eqb_spec i j); try contradiction; auto. }
    destruct Hstep as [-> | ->].
    + apply IH. intros H. apply Hno. right. exact H.
    + right. apply next_owner_none.
Qed.

Lemma owner_after_split pre ev mid ev' post :
  owner_after (List.app pre (ev :: List.app mid (ev' :: post)))
  = fold_left next_owner post
      (next_owner (fold_left next_owner mid (next_owner (owner_after pre) ev)) ev').
Proof.
  unfold owner_after. rewrite fold_left_app. cbn [fold_left].
  rewrite fold_left_app. reflexivity.
Qed.

Lemma owner_no_interleaving tr o :
  owner_after tr = Some o -> no_interleaving tr.
Proof.
  intros Htr pre i a mid j b post -> Ha Hmid.
  rewrite owner_after_split in Htr.
  assert (Hdead : forall ev, next_owner None ev = None) by reflexivity.
  destruct (owner_after pre) as [cur|];
    [|rewrite Hdead, next_owner_none, Hdead, next_owner_none in Htr;
      discriminate Htr].
  assert (Hfirst : next_owner (Some cur) (i, a) = Some (Some i)
                   \/ next_owner (Some cur) (i, a) = None).
  { destruct cur as [h|]; destruct a; cbn; auto; try contradiction;
      destruct (Nat.eqb_spec h i) as [->|]; auto. }
  destruct Hfirst as [Hf|Hf]; rewrite Hf in Htr.
  - destruct (owned_stays i mid Hmid) as [Hs|Hs]; rewrite Hs in Htr.
    + destruct (Nat.eqb_spec i j) as [->|Hne]; [reflexivity|].
      assert (Hb : next_owner (Some (Some i)) (j, b) = None).
      { destruct b; cbn; destruct (Nat.eqb_spec i j); try contradiction; auto. }
      rewrite Hb, next_owner_none in Htr. discriminate Htr.
    + rewrite Hdead, next_owner_none in Htr. discriminate Htr.
  - rewrite next_owner_none, Hdead, next_owner_none in Htr. discriminate Htr.
Qed.

End Scheduler.

(** ** What a goroutine delivers: facts *)

Section Delivery.

(** The outcome of a command and what it sends depend on the exporter
    through its mutex only. *)
Lemma exec_independent c e1 e2 ch :
  mutex e1 = mutex e2 ->
  fst (exec c (mkState e1 ch)) = fst (exec c (mkState e2 ch))
  /\ channel (snd (exec c (mkState e1 ch))) = channel (snd (exec c (mkState e2 ch)))
  /\ mutex (exporter (snd (exec c (mkState e1 ch))))
     = mutex (exporter (snd (exec c (mkState e2 ch)))).
Proof.
  intros Hm. destruct c as [| |r| |g|msg|m|]; cbn [exec].
  - unfold Lock, update. cbn [exporter channel].
    destruct (mutex e1) eqn:H1, (mutex e2) eqn:H2; try discriminate Hm;
      cbn; repeat split; congruence.
  - unfold Unlock, update. cbn [exporter channel].
    destruct (mutex e1) eqn:H1, (mutex e2) eqn:H2; try discriminate Hm;
      cbn; repeat split; congruence.
  - destruct r; cbn; repeat split; exact Hm.
  - cbn. repeat split. exact Hm.
  - destruct g; cbn; repeat split; exact Hm.
  - cbn. repeat split. exact Hm.
  - destruct m as [r|d t v]; [cbn; repeat split; exact Hm|].
    unfold bind, MustNewConstMetric. destruct (prometheus.err d); cbn;
      repeat split; exact Hm.
  - cbn. repeat split. exact Hm.
Qed.

Lemma run_cmds_independent k : forall f e1 e2 ch,
  mutex e1 = mutex e2 ->
  fst (run_cmds k f (mkState e1 ch)) = fst (run_cmds k f (mkState e2 ch))
  /\ channel (snd (run_cmds k f (mkState e1 ch)))
     = channel (snd (run_cmds k f (mkState e2 ch))).
Proof.
  induction k as [|c k IH]; intros f e1 e2 ch Hm; [split; reflexivity|].
  cbn [run_cmds].
  assert (Hexec :
    fst (match exec c (mkState e1 ch) with
         | (Returns _, s') => run_cmds k f s'
         | (Panics p, s') => run_cmds k (Some p) s'
         | (Hangs, s') => (Hangs, s')
         end)
    = fst (match exec c (mkState e2 ch) with
           | (Returns _, s') => run_cmds k f s'
           | (Panics p, s') => run_cmds k (Some p) s'
           | (Hangs, s') => (Hangs, s')
           end)
    /\ channel (snd (match exec c (mkState e1 ch) with
                     | (Returns _, s') => run_cmds k f s'
                     | (Panics p, s') => run_cmds k (Some p) s'
                     | (Hangs, s') => (Hangs, s')
                     end))
       = channel (snd (match exec c (mkState e2 ch) with
                       | (Returns _, s') => run_cmds k f s'
                       | (Panics p, s') => run_cmds k (Some p) s'
                       | (Hangs, s') => (Hangs, s')
                       end))).
  { destruct (exec_independent c e1 e2 ch Hm) as (Ho & Hc & Hx).
    destruct (exec c (mkState e1 ch)) as [o1 [x1 c1]].
    destruct (exec c (mkState e2 ch)) as [o2 [x2 c2]].
    cbn [fst snd channel exporter] in Ho, Hc, Hx. subst o2 c2.
    destruct o1 as [a|p|]; [apply IH|apply IH|split; reflexivity]; exact Hx. }
  destruct f as [p|]; [|exact Hexec].
  destruct (is_unlock c); [exact Hexec|]. apply IH. exact Hm.
Qed.

Lemma run_cmds_deferred k : forall p s,
  run_cmds (deferred k) (Some p) s = run_cmds k (Some p) s.
Proof.
  induction k as [|c k IH]; intros p s; [reflexivity|].
  unfold deferred. cbn [filter]. fold (deferred k).
  destruct (is_unlock c) eqn:Hc; cbn [run_cmds]; rewrite Hc.
  - destruct (exec c s) as [[a|p'|] s']; [apply IH|apply IH|reflexivity].
  - apply IH.
Qed.

Lemma delivery_start e gets : delivery_kept e gets (start e gets).
Proof.
  intros i th Hth. cbn [start threads] in Hth. rewrite nth_error_map in Hth.
  destruct (nth_error gets i) as [g|]; [|discriminate Hth].
  injection Hth as <-. exists g. split; [reflexivity|]. split; [reflexivity|].
  intros H. contradiction H. reflexivity.
Qed.

(** When goroutine [i] can move, the mutex is held exactly if [i] is inside. *)
Lemma mover_mutex cfg o i th cfg' :
  invariant cfg o -> nth_error (threads cfg) i = Some th ->
  step i cfg = Some cfg' -> mutex (shared cfg) = inside th.
Proof.
  intros Hinv Hth Hstep. destruct (inside th) eqn:Hin.
  - rewrite (inv_mutex cfg o Hinv).
    rewrite (proj1 (inv_owner cfg o Hinv i th Hth) Hin). reflexivity.
  - unfold step in Hstep. rewrite Hth in Hstep. unfold inside in Hin.
    destruct (todo th) as [|c k]; [discriminate Hstep|].
    destruct c; try discriminate Hin.
    cbn [exec] in Hstep. unfold Lock in Hstep. cbn [exporter] in Hstep.
    destruct (mutex (shared cfg)); [discriminate Hstep|reflexivity].
Qed.


Lemma forallb_deferred k : forallb is_unlock (deferred k) = true.
Proof.
  induction k as [|c k IH]; [reflexivity|].
  unfold deferred. cbn [filter]. destruct (is_unlock c) eqn:Hc; [|exact IH].
  cbn [forallb]. rewrite Hc. exact IH.
Qed.

(** A goroutine that has run one more command delivers what it did. *)
Lemma delivers_after_step e x th c k o s' :
  todo th = c :: k ->
  (failure th <> None -> is_unlock c = true) ->
  mutex x = inside th ->
  exec c (mkState x (chan th)) = (o, s') ->
  match o with
  | Returns _ =>
      mutex (exporter s') = inside_todo k ->
      delivers e (mkThread k (channel s') (failure th)) = delivers e th
  | Panics p =>
      mutex (exporter s') = inside_todo (deferred k) ->
      delivers e (mkThread (deferred k) (channel s') (Some p)) = delivers e th
  | Hangs => True
  end.
Proof.
  intros Htodo Hfail Hmx Hex.
  assert (Hrun : run_cmds (c :: k) (failure th)
                   (mkState (with_mutex (inside th) e) (chan th))
                 = match exec c (mkState (with_mutex (inside th) e) (chan th)) with
                   | (Returns _, s0) => run_cmds k (failure th) s0
                   | (Panics p, s0) => run_cmds k (Some p) s0
                   | (Hangs, s0) => (Hangs, s0)
                   end).
  { cbn [run_cmds]. destruct (failure th) as [p|]; [|reflexivity].
    rewrite Hfail by discriminate. reflexivity. }
  destruct (exec_independent c x (with_mutex (inside th) e) (chan th) Hmx)
    as (Ho & Hc & Hx).
  rewrite Hex in Ho, Hc, Hx. cbn [fst snd] in Ho, Hc, Hx.
  destruct (exec c (mkState (with_mutex (inside th) e) (chan th)))
    as [o0 [x0 c0]] eqn:H0.
  cbn [fst snd channel exporter] in Ho, Hc, Hx. subst o0 c0.
  destruct o as [a|p|]; [| |exact I]; intros Hafter;
    unfold delivers at 2; rewrite Htodo, Hrun;
    unfold delivers, inside; cbn [todo chan failure].
  - destruct (run_cmds_independent k (failure th)
                (with_mutex (inside_todo k) e) x0 (channel s')) as [H1 H2];
      [cbn [with_mutex mutex]; congruence|].
    rewrite H1, H2. reflexivity.
  - rewrite run_cmds_deferred.
    destruct (run_cmds_independent k (Some p)
                (with_mutex (inside_todo (deferred k)) e) x0 (channel s'))
      as [H1 H2]; [cbn [with_mutex mutex]; congruence|].
    rewrite H1, H2. reflexivity.
Qed.

Lemma delivery_step e gets cfg o i cfg' :
  invariant cfg o -> delivery_kept e gets cfg -> step i cfg = Some cfg' ->
  delivery_kept e gets cfg'.
Proof.
  intros Hinv Hkept Hstep j thj Hj.
  pose proof Hstep as Hmoved. unfold step in Hstep.
  destruct (nth_error (threads cfg) i) as [th|] eqn:Hth; [|discriminate Hstep].
  pose proof (mover_mutex cfg o i th cfg' Hinv Hth Hmoved) as Hmx.
  destruct (Hkept i th Hth) as (g & Hg & Hdel & Hfail).
  pose proof (inv_shape cfg o Hinv i th Hth) as Hshape.
  destruct (todo th) as [|c k] eqn:Htodo; [discriminate Hstep|].
  apply shape_next in Hshape.
  assert (Hunlock : failure th <> None -> is_unlock c = true).
  { intros H. apply Hfail in H. cbn [forallb] in H. apply andb_prop in H. tauto. }
  assert (Hrest : failure th <> None -> forallb is_unlock k = true).
  { intros H. apply Hfail in H. cbn [forallb] in H. apply andb_prop in H. tauto. }
  destruct (exec c (mkState (shared cfg) (chan th))) as [oc s'] eqn:Hex.
  pose proof (delivers_after_step e (shared cfg) th c k oc s' Htodo Hunlock Hmx Hex)
    as Hafter.
  assert (Hmutex :
    match oc with
    | Returns _ => mutex (exporter s') = inside_todo k
    | Panics _ => mutex (exporter s') = inside_todo (deferred k)
    | Hangs => True
    end).
  { unfold inside in Hmx. rewrite Htodo in Hmx.
    destruct (plain c) eqn:Hplain.
    - assert (Hk : exists body, k = List.app body [CUnlock]
                                /\ forallb plain body = true)
        by (destruct c; try discriminate Hplain; exact Hshape).
      destruct Hk as (body & -> & Hbody).
      pose proof (exec_plain_mutex c _ _ _ Hplain Hex) as Hsame.
      cbn [exporter] in Hsame.
      assert (Hin : inside_todo (c :: List.app body [CUnlock]) = true)
        by (destruct c; try discriminate Hplain; reflexivity).
      destruct oc; [| |exact I]; rewrite Hsame, Hmx, Hin.
      + symmetry. apply inside_body, Hbody.
      + rewrite (deferred_body body Hbody). reflexivity.
    - destruct c; try discriminate Hplain.
      + destruct Hshape as (body & -> & Hbody).
        cbn [exec] in Hex. unfold Lock, update in Hex. cbn [exporter channel] in Hex.
        destruct (mutex (shared cfg)); injection Hex as <- <-; [exact I|].
        cbn [exporter mutex]. symmetry. apply inside_body, Hbody.
      + subst k. cbn [exec] in Hex. unfold Unlock, update in Hex.
        cbn [exporter channel] in Hex. rewrite Hmx in Hex. cbn [inside_todo] in Hex.
        injection Hex as <- <-. reflexivity. }
  destruct oc as [a|p|]; [| |discriminate Hstep]; injection Hstep as <-;
    cbn [threads] in Hj; apply nth_error_replace in Hj;
    destruct Hj as [[<- ->]|[Hne Hj]]; try exact (Hkept j thj Hj);
    exists g; (split; [exact Hg|]); split.
  - rewrite (Hafter Hmutex). exact Hdel.
  - cbn [failure todo]. exact Hrest.
  - rewrite (Hafter Hmutex). exact Hdel.
  - intros _. cbn [todo]. apply forallb_deferred.
Qed.

Lemma delivery_run e gets sched : forall cfg o,
  invariant cfg o -> delivery_kept e gets cfg ->
  delivery_kept e gets (run sched cfg).
Proof.
  induction sched as [|i sched IH]; intros cfg o Hinv Hkept; [exact Hkept|].
  cbn [run]. destruct (step i cfg) as [cfg'|] eqn:Hstep.
  - destruct (invariant_step cfg o i cfg' Hinv Hstep) as [o' Hinv'].
    exact (IH cfg' o' Hinv' (delivery_step e gets cfg o i cfg' Hinv Hkept Hstep)).
  - exact (IH cfg o Hinv Hkept).
Qed.

End Delivery.

(** ** Members that are absent: facts *)

Section Leniency.

Lemma store_members_lacks ms : forall r saved,
  lacks "current" ms = true -> json.store_members ms r saved = (r, saved).
Proof.
  induction ms as [|[k v] ms IH]; intros r saved H; [reflexivity|].
  cbn [lacks forallb fst] in H. apply andb_prop in H. destruct H as [Hk Hms].
  cbn [json.store_members].
  destruct (json.equal_fold "current" k); [discriminate Hk|].
  apply IH. exact Hms.
Qed.

Ltac split_fields :=
  unfold json.store_field;
  repeat match goal with
         | |- context [json.equal_fold ?a ?k] =>
             destruct (json.equal_fold a k) eqn:?
         end;
  repeat match goal with
         | |- context [json.store_int ?v ?x] => destruct (json.store_int v x)
         | |- context [json.store_float ?v ?x] => destruct (json.store_float v x)
         end;
  cbn; try reflexivity; try discriminate.

(** A member whose key is not the tag of a field leaves that field as it is. *)
Lemma store_field_keeps k v d :
  (json.equal_fold "co" k = false -> CO2 (fst (json.store_field k v d)) = CO2 d)
  /\ (json.equal_fold "p2" k = false -> P25 (fst (json.store_field k v d)) = P25 d)
  /\ (json.equal_fold "p1" k = false -> P10 (fst (json.store_field k v d)) = P10 d)
  /\ (json.equal_fold "tp" k = false ->
      Temperature (fst (json.store_field k v d)) = Temperature d)
  /\ (json.equal_fold "hm" k = false ->
      Humidity (fst (json.store_field k v d)) = Humidity d).
Proof. repeat split; intros H; revert H; split_fields. Qed.

Lemma lacks_cons name k v ms :
  lacks name ((k, v) :: ms) = true ->
  json.equal_fold name k = false /\ lacks name ms = true.
Proof.
  cbn [lacks forallb fst]. intros H. apply andb_prop in H. destruct H as [Hk Hms].
  split; [|exact Hms]. destruct (json.equal_fold name k); [discriminate Hk|reflexivity].
Qed.

Lemma store_fields_keeps fs : forall d saved,
  (lacks "co" fs = true -> CO2 (fst (json.store_fields fs d saved)) = CO2 d)
  /\ (lacks "p2" fs = true -> P25 (fst (json.store_fields fs d saved)) = P25 d)
  /\ (lacks "p1" fs = true -> P10 (fst (json.store_fields fs d saved)) = P10 d)
  /\ (lacks "tp" fs = true ->
      Temperature (fst (json.store_fields fs d saved)) = Temperature d)
  /\ (lacks "hm" fs = true ->
      Humidity (fst (json.store_fields fs d saved)) = Humidity d).
Proof.
  induction fs as [|[k v] fs IH]; intros d saved; [repeat split|].
  cbn [json.store_fields].
  pose proof (store_field_keeps k v d) as (K1 & K2 & K3 & K4 & K5).
  destruct (json.store_field k v d) as [d' e'].
  destruct (IH d' (json.save_error saved e')) as (I1 & I2 & I3 & I4 & I5).
  cbn [fst] in K1, K2, K3, K4, K5.
  repeat split; intros H; apply lacks_cons in H; destruct H as [Hk Hfs].
  - rewrite (I1 Hfs). exact (K1 Hk).
  - rewrite (I2 Hfs). exact (K2 Hk).
  - rewrite (I3 Hfs). exact (K3 Hk).
  - rewrite (I4 Hfs). exact (K4 Hk).
  - rewrite (I5 Hfs). exact (K5 Hk).
Qed.

End Leniency.

(** ** Decoding a valid envelope: facts *)

Section Envelope.

Lemma equal_fold_trans a : forall b k,
  json.equal_fold a k = true -> json.equal_fold b k = true ->
  json.equal_fold a b = true.
Proof.
  induction a as [|x a IH]; intros [|y b] [|z k] Ha Hb;
    cbn [json.equal_fold] in *; try discriminate; [reflexivity|].
  apply andb_prop in Ha. destruct Ha as [Hx Ha].
  apply andb_prop in Hb. destruct Hb as [Hy Hb].
  apply Ascii.eqb_eq in Hx. apply Ascii.eqb_eq in Hy.
  rewrite Hx, <- Hy, Ascii.eqb_refl. cbn [andb]. exact (IH b k Ha Hb).
Qed.

(** A key is the tag of one field at most. *)
Lemma equal_fold_other a b k :
  json.equal_fold a b = false -> json.equal_fold a k = true ->
  json.equal_fold b k = false.
Proof.
  intros Hab Ha. destruct (json.equal_fold b k) eqn:Hb; [|reflexivity].
  rewrite (equal_fold_trans a b k Ha Hb) in Hab. discriminate Hab.
Qed.

(** The one member named [name] is in the list, and every member of that
    name is it. *)
Lemma member_some name ms v :
  member name ms = Some v ->
  lacks name ms = false
  /\ forall k v', In (k, v') ms -> json.equal_fold name k = true -> v' = v.
Proof.
  unfold member. intros H.
  destruct (filter (fun kv => json.equal_fold name (fst kv)) ms) as [|kv [|]] eqn:Hf;
    try discriminate H.
  injection H as <-. split.
  - destruct (lacks name ms) eqn:Hl; [|reflexivity].
    assert (Hin : In kv (filter (fun kv => json.equal_fold name (fst kv)) ms))
      by (rewrite Hf; left; reflexivity).
    apply filter_In in Hin. destruct Hin as [Hin Hk].
    unfold lacks in Hl. rewrite forallb_forall in Hl.
    specialize (Hl kv Hin). rewrite Hk in Hl. discriminate Hl.
  - intros k v' Hin Hk.
    assert (Hin' : In (k, v') (filter (fun kv => json.equal_fold name (fst kv)) ms))
      by (apply filter_In; split; [exact Hin|exact Hk]).
    rewrite Hf in Hin'. destruct Hin' as [Heq|[]]. rewrite Heq. reflexivity.
Qed.

Lemma integer_member_some name ms z :
  integer_member name ms = Some z ->
  exists d, member name ms = Some (json.JNumber d)
            /\ (- 2 ^ 63 <= z < 2 ^ 63 -> strconv.ParseInt d = Some z).
Proof.
  unfold integer_member. intros H.
  destruct (member name ms) as [[| | d | | |]|]; try discriminate H.
  exists d. split; [reflexivity|]. intros Hz. unfold strconv.ParseInt.
  destruct (strconv.frac_len d); [|discriminate H].
  destruct (strconv.exp d); [discriminate H|].
  injection H as ->.
  destruct (Z.leb_spec (- 2 ^ 63) z); [|lia].
  destruct (Z.ltb_spec z (2 ^ 63)); [|lia].
  reflexivity.
Qed.

Lemma number_member_some name ms d :
  number_member name ms = Some d -> member name ms = Some (json.JNumber d).
Proof.
  unfold number_member. intros H.
  destruct (member name ms) as [[| | d' | | |]|]; try discriminate H.
  injection H as ->. reflexivity.
Qed.

Variables (nco np2 np1 ntp nhm : strconv.decimal) (co p2 p1 hm : Z) (t : float64).
Hypothesis Hco : strconv.ParseInt nco = Some co.
Hypothesis Hp2 : strconv.ParseInt np2 = Some p2.
Hypothesis Hp1 : strconv.ParseInt np1 = Some p1.
Hypothesis Htp : strconv.ParseFloat ntp = Some t.
Hypothesis Hhm : strconv.ParseInt nhm = Some hm.

Lemma agrees_cons name v k v' ms :
  agrees name v ((k, v') :: ms) ->
  (json.equal_fold name k = true -> v' = v) /\ agrees name v ms.
Proof.
  intros H. split.
  - intros Hk. exact (H k v' (or_introl eq_refl) Hk).
  - intros k0 v0 Hin Hk. exact (H k0 v0 (or_intror Hin) Hk).
Qed.

Lemma store_fields_agree ms : forall d saved,
  agrees "co" (json.JNumber nco) ms -> agrees "p2" (json.JNumber np2) ms ->
  agrees "p1" (json.JNumber np1) ms -> agrees "tp" (json.JNumber ntp) ms ->
  agrees "hm" (json.JNumber nhm) ms ->
  json.store_fields ms d saved
  = (mkAPIData (if lacks "co" ms then CO2 d else co)
       (if lacks "p2" ms then P25 d else p2)
       (if lacks "p1" ms then P10 d else p1)
       (if lacks "tp" ms then Temperature d else t)
       (if lacks "hm" ms then Humidity d else hm), saved).
Proof.
  induction ms as [|[k v] ms IH]; intros d saved A1 A2 A3 A4 A5.
  - destruct d; reflexivity.
  - apply agrees_cons in A1, A2, A3, A4, A5.
    destruct A1 as [V1 A1], A2 as [V2 A2], A3 as [V3 A3], A4 as [V4 A4],
      A5 as [V5 A5].
    cbn [json.store_fields]. unfold lacks. cbn [forallb fst]. fold (lacks "co" ms).
    fold (lacks "p2" ms). fold (lacks "p1" ms). fold (lacks "tp" ms).
    fold (lacks "hm" ms).
    unfold json.store_field.
    destruct (json.equal_fold "co" k) eqn:E1.
    { rewrite (equal_fold_other "co" "p2" k eq_refl E1),
        (equal_fold_other "co" "p1" k eq_refl E1),
        (equal_fold_other "co" "tp" k eq_refl E1),
        (equal_fold_other "co" "hm" k eq_refl E1).
      rewrite (V1 eq_refl). cbn [json.store_int]. rewrite Hco.
      rewrite (IH _ _ A1 A2 A3 A4 A5). destruct saved; cbn;
        destruct (lacks "co" ms); reflexivity. }
    destruct (json.equal_fold "p2" k) eqn:E2.
    { rewrite (equal_fold_other "p2" "p1" k eq_refl E2),
        (equal_fold_other "p2" "tp" k eq_refl E2),
        (equal_fold_other "p2" "hm" k eq_refl E2).
      rewrite (V2 eq_refl). cbn [json.store_int]. rewrite Hp2.
      rewrite (IH _ _ A1 A2 A3 A4 A5). destruct saved; cbn;
        destruct (lacks "p2" ms); reflexivity. }
    destruct (json.equal_fold "p1" k) eqn:E3.
    { rewrite (equal_fold_other "p1" "tp" k eq_refl E3),
        (equal_fold_other "p1" "hm" k eq_refl E3).
      rewrite (V3 eq_refl). cbn [json.store_int]. rewrite Hp1.
      rewrite (IH _ _ A1 A2 A3 A4 A5). destruct saved; cbn;
        destruct (lacks "p1" ms); reflexivity. }
    destruct (json.equal_fold "tp" k) eqn:E4.
    { rewrite (equal_fold_other "tp" "hm" k eq_refl E4).
      rewrite (V4 eq_refl). cbn [json.store_float]. rewrite Htp.
      rewrite (IH _ _ A1 A2 A3 A4 A5). destruct saved; cbn;
        destruct (lacks "tp" ms); reflexivity. }
    destruct (json.equal_fold "hm" k) eqn:E5.
    { rewrite (V5 eq_refl). cbn [json.store_int]. rewrite Hhm.
      rewrite (IH _ _ A1 A2 A3 A4 A5). destruct saved; cbn;
        destruct (lacks "hm" ms); reflexivity. }
    rewrite (IH _ _ A1 A2 A3 A4 A5). destruct saved; cbn; reflexivity.
Qed.

End Envelope.

Section EnvelopeDecoding.

Lemma filter_nil_lacks name ms :
  filter (fun kv : string * json.value => json.equal_fold name (fst kv)) ms = [] ->
  lacks name ms = true.
Proof.
  induction ms as [|[k v] ms IH]; [reflexivity|].
  cbn [filter lacks forallb fst]. destruct (json.equal_fold name k); [discriminate|].
  exact IH.
Qed.

Lemma store_members_current ms fs : forall r saved,
  member "current" ms = Some (json.JObject fs) ->
  json.store_members ms r saved
  = (mkAPIResponse (fst (json.store_fields fs (Current r) None)),
     json.save_error saved (snd (json.store_fields fs (Current r) None))).
Proof.
  induction ms as [|[k v] ms IH]; intros r saved H; [discriminate H|].
  unfold member in H. cbn [filter fst] in H. cbn [json.store_members].
  destruct (json.equal_fold "current" k) eqn:Hk.
  - destruct (filter (fun kv => json.equal_fold "current" (fst kv)) ms) eqn:Hf;
      [|discriminate H].
    cbn [snd] in H. injection H as ->. cbn [json.store_APIData].
    destruct (json.store_fields fs (Current r) None) as [d e].
    apply store_members_lacks, filter_nil_lacks. exact Hf.
  - apply IH. exact H.
Qed.

(** Decoding a valid envelope stores each of its fields. *)
Lemma Unmarshal_valid_envelope body v co p2 p1 tp hm :
  json.parse body = Some v ->
  valid_envelope v = Some (co, p2, p1, tp, hm) ->
  - 2 ^ 63 <= co < 2 ^ 63 -> - 2 ^ 63 <= p2 < 2 ^ 63 ->
  - 2 ^ 63 <= p1 < 2 ^ 63 -> - 2 ^ 63 <= hm < 2 ^ 63 ->
  Float64.is_finite (strconv.float_value tp) = true ->
  json.Unmarshal body APIResponse_zero
  = (mkAPIResponse (mkAPIData co p2 p1 (strconv.float_value tp) hm), None).
Proof.
  intros Hparse Hv Rco Rp2 Rp1 Rhm Rtp.
  unfold json.Unmarshal. rewrite Hparse.
  destruct v as [| | | | |ms]; try discriminate Hv.
  cbn [valid_envelope] in Hv.
  destruct (member "current" ms) as [[| | | | |fs]|] eqn:Hcur; try discriminate Hv.
  destruct (integer_member "co" fs) as [co'|] eqn:Eco; [|discriminate Hv].
  destruct (integer_member "p2" fs) as [p2'|] eqn:Ep2; [|discriminate Hv].
  destruct (integer_member "p1" fs) as [p1'|] eqn:Ep1; [|discriminate Hv].
  destruct (number_member "tp" fs) as [tp'|] eqn:Etp; [|discriminate Hv].
  destruct (integer_member "hm" fs) as [hm'|] eqn:Ehm; [|discriminate Hv].
  injection Hv as -> -> -> -> ->.
  apply integer_member_some in Eco, Ep2, Ep1, Ehm.
  destruct Eco as (nco & Mco & Pco), Ep2 as (np2 & Mp2 & Pp2),
    Ep1 as (np1 & Mp1 & Pp1), Ehm as (nhm & Mhm & Phm).
  apply number_member_some in Etp.
  apply member_some in Mco, Mp2, Mp1, Etp, Mhm.
  destruct Mco as [Lco Aco], Mp2 as [Lp2 Ap2], Mp1 as [Lp1 Ap1],
    Etp as [Ltp Atp], Mhm as [Lhm Ahm].
  assert (Htp : strconv.ParseFloat tp = Some (strconv.float_value tp)).
  { unfold strconv.ParseFloat. cbv zeta. rewrite Rtp. reflexivity. }
  cbn [json.store_APIResponse].
  rewrite (store_members_current ms fs _ _ Hcur).
  rewrite (store_fields_agree nco np2 np1 tp nhm co p2 p1 hm
             (strconv.float_value tp) (Pco Rco) (Pp2 Rp2) (Pp1 Rp1) Htp (Phm Rhm)
             fs _ _ Aco Ap2 Ap1 Atp Ahm).
  rewrite Lco, Lp2, Lp1, Ltp, Lhm. reflexivity.
Qed.

End EnvelopeDecoding.

(** ** The claims *)

(** C1 (as the code behaves): when the GET fails, [Collect] counts the
    scrape, leaves the parse-failure counter alone and sends the two
    counters and [up = 0]; it then dereferences the nil result of [scrape]
    and panics, so no reading gauge is sent and the fault reaches the
    caller. *)
Theorem C1_transport_failure_panics (net : http.Upstream) (e : Exporter) :
  mutex e = false ->
  net (URI e) = http.TransportError ->
  let (o, s) := run_Collect net e in
  o = Panics NilDereference
  /\ channel s = health Float64.const_0
  /\ gauges (channel s) = [("iqair_up", Float64.const_0)]
  /\ prometheus.counter_value (totalScrapes (exporter s))
     = (prometheus.counter_value (totalScrapes e) + 1)%N
  /\ jsonParseFailures (exporter s) = jsonParseFailures e
  /\ mutex (exporter s) = false.
Proof.
  intros Hm Hnet. rewrite (Collect_transport_error net e Hm Hnet).
  repeat split; reflexivity.
Qed.

Lemma C1_transport_failure_panics_witness :
  let (o, s) := run_Collect unreachable sample_exporter in
  o = Panics NilDereference
  /\ channel s = health Float64.const_0
  /\ gauges (channel s) = [("iqair_up", Float64.const_0)]
  /\ prometheus.counter_value (totalScrapes (exporter s))
     = (prometheus.counter_value (totalScrapes sample_exporter) + 1)%N
  /\ jsonParseFailures (exporter s) = jsonParseFailures sample_exporter
  /\ mutex (exporter s) = false.
Proof.
  apply (C1_transport_failure_panics unreachable sample_exporter); reflexivity.
Defined.

(** C2 (as the code behaves): when the body does not decode, [Collect]
    counts the scrape and sends the two counters and [up = 0], but the
    parse-failure counter keeps its value, and the nil result of [scrape]
    makes [Collect] panic before any reading gauge is sent. *)
Theorem C2_decode_failure_panics (net : http.Upstream) (e : Exporter)
  (status : Z) (body : string) (parsed : APIResponse) (err : json.error) :
  mutex e = false ->
  net (URI e) = http.Answers (http.mkResponse status (Some body)) ->
  json.Unmarshal body APIResponse_zero = (parsed, Some err) ->
  let (o, s) := run_Collect net e in
  o = Panics NilDereference
  /\ channel s = health Float64.const_0
  /\ gauges (channel s) = [("iqair_up", Float64.const_0)]
  /\ prometheus.counter_value (totalScrapes (exporter s))
     = (prometheus.counter_value (totalScrapes e) + 1)%N
  /\ prometheus.counter_value (jsonParseFailures (exporter s))
     = prometheus.counter_value (jsonParseFailures e).
Proof.
  intros Hm Hnet Hdec.
  rewrite (Collect_decode_error net e Hm status body parsed err Hnet Hdec).
  repeat split; reflexivity.
Qed.

Lemma C2_decode_failure_panics_witness :
  let (o, s) := run_Collect (serving 200 "not json") sample_exporter in
  o = Panics NilDereference
  /\ channel s = health Float64.const_0
  /\ gauges (channel s) = [("iqair_up", Float64.const_0)]
  /\ prometheus.counter_value (totalScrapes (exporter s))
     = (prometheus.counter_value (totalScrapes sample_exporter) + 1)%N
  /\ prometheus.counter_value (jsonParseFailures (exporter s))
     = prometheus.counter_value (jsonParseFailures sample_exporter).
Proof.
  apply (C2_decode_failure_panics (serving 200 "not json") sample_exporter
           200 "not json" APIResponse_zero json.SyntaxErr); reflexivity.
Defined.

(** C3 (as the code behaves): [Describe] sends three descriptors, the up
    indicator and the two counters; the descriptors of the five reading
    gauges are not sent.  The exporter is not modified: [Describe] only
    reads it. *)
Theorem C3_Describe_sends_three (uri : string) (timeout : http.Duration)
  (lg : Logger) (e : Exporter) :
  NewExporter uri timeout lg = (Some e, None) ->
  map prometheus.fqName (Describe e [])
  = ["iqair_up"; "iqair_exporter_scrapes_total";
     "iqair_exporter_json_parse_failures_total"]
  /\ forall d, In d [iqAirCO2; iqAirP25; iqAirP10; iqAirTemp; iqAirHumidity] ->
               ~ In d (Describe e []).
Proof.
  intros Hnew. unfold NewExporter in Hnew.
  injection Hnew as <-. split; [reflexivity|].
  intros d Hd Hin. cbn in Hd, Hin.
  repeat (destruct Hd as [<-|Hd]; [intuition discriminate|]).
  exact Hd.
Qed.

Lemma C3_Describe_sends_three_witness :
  map prometheus.fqName (Describe sample_exporter [])
  = ["iqair_up"; "iqair_exporter_scrapes_total";
     "iqair_exporter_json_parse_failures_total"]
  /\ forall d, In d [iqAirCO2; iqAirP25; iqAirP10; iqAirTemp; iqAirHumidity] ->
               ~ In d (Describe sample_exporter []).
Proof.
  apply (C3_Describe_sends_three "http://airvisual.local/node"
           (10 * http.Second)%Z [] sample_exporter).
  reflexivity.
Defined.

(** C4 (amended): for every body that is a valid envelope, whatever the
    order of its members and whatever other members it has, whose integer
    fields have magnitude at most 2^53 and whose temperature literal is in
    the range of a binary64, [Collect] sends [up = 1] and five gauges: those
    of the integer fields have exactly the values of the JSON integers, and
    the temperature gauge is the binary64 value [strconv.ParseFloat] gives
    the literal, sent as it was decoded, which is exactly the value of the
    literal whenever that value is a binary64 number.  For the body
    [{"current":{"co":410,"p2":5,"p1":12,"tp":21.5,"hm":40}}] the values
    sent are up=1, co2=410, p25=5, p10=12, temperature=21.5, humidity=40. *)
Theorem C4_gauges_equal_fields :
  (forall (net : http.Upstream) (e : Exporter) (status : Z) (body : string)
          (v : json.value) (co p2 p1 : Z) (tp : strconv.decimal) (hm : Z),
      mutex e = false ->
      net (URI e) = http.Answers (http.mkResponse status (Some body)) ->
      json.parse body = Some v ->
      valid_envelope v = Some (co, p2, p1, tp, hm) ->
      (Z.abs co <= 2 ^ 53)%Z -> (Z.abs p2 <= 2 ^ 53)%Z ->
      (Z.abs p1 <= 2 ^ 53)%Z -> (Z.abs hm <= 2 ^ 53)%Z ->
      Float64.is_finite (strconv.float_value tp) = true ->
      exists up co2 p25 p10 temp hum,
        fst (run_Collect net e) = Returns tt
        /\ gauges (channel (snd (run_Collect net e)))
           = [("iqair_up", up); ("iqair_co2", co2); ("iqair_p25", p25);
              ("iqair_p10", p10); ("iqair_temperature", temp);
              ("iqair_humidity", hum)]
        /\ Float64.represents up (inject_Z 1)
        /\ Float64.represents co2 (inject_Z co)
        /\ Float64.represents p25 (inject_Z p2)
        /\ Float64.represents p10 (inject_Z p1)
        /\ Float64.represents hum (inject_Z hm)
        /\ temp = strconv.float_value tp
        /\ (forall f : float64,
               Float64.valid f = true ->
               Float64.represents f (strconv.value tp) ->
               Float64.represents temp (strconv.value tp)))
  /\ (forall (net : http.Upstream) (e : Exporter) (status : Z),
      mutex e = false ->
      net (URI e) = http.Answers (http.mkResponse status (Some example_body)) ->
      exists up co2 p25 p10 temp hum,
        fst (run_Collect net e) = Returns tt
        /\ gauges (channel (snd (run_Collect net e)))
           = [("iqair_up", up); ("iqair_co2", co2); ("iqair_p25", p25);
              ("iqair_p10", p10); ("iqair_temperature", temp);
              ("iqair_humidity", hum)]
        /\ Float64.represents up (inject_Z 1)
        /\ Float64.represents co2 (inject_Z 410)
        /\ Float64.represents p25 (inject_Z 5)
        /\ Float64.represents p10 (inject_Z 12)
        /\ Float64.represents temp (43 # 2)
        /\ Float64.represents hum (inject_Z 40)).
Proof.
  split.
  - intros net e status body v co p2 p1 tp hm Hm Hnet Hparse Hv Hco Hp2 Hp1 Hhm Htp.
    assert (Hdec : json.Unmarshal body APIResponse_zero
                   = (mkAPIResponse
                        (mkAPIData co p2 p1 (strconv.float_value tp) hm), None))
      by (apply (Unmarshal_valid_envelope body v); try assumption; lia).
    rewrite (Collect_decoded net e Hm status body _ Hnet Hdec).
    exists Float64.const_1, (Float64.of_int co), (Float64.of_int p2),
      (Float64.of_int p1), (strconv.float_value tp), (Float64.of_int hm).
    split; [reflexivity|]. split; [reflexivity|].
    split; [exact const_1_exact|].
    split; [apply of_int_exact; assumption|].
    split; [apply of_int_exact; assumption|].
    split; [apply of_int_exact; assumption|].
    split; [apply of_int_exact; assumption|].
    split; [reflexivity|].
    intros f Hf Hrep. exact (float_value_exact tp f Htp Hf Hrep).
  - intros net e status Hm Hnet.
    rewrite (Collect_decoded net e Hm status example_body _ Hnet
               Unmarshal_example_body).
    exists Float64.const_1, (Float64.of_int 410), (Float64.of_int 5),
      (Float64.of_int 12), (S754_finite false (43 * 2 ^ 47) (-48)),
      (Float64.of_int 40).
    repeat split; reflexivity.
Qed.

Lemma C4_gauges_equal_fields_witness :
  exists up co2 p25 p10 temp hum,
    fst (run_Collect (serving 200 shuffled_body) sample_exporter) = Returns tt
    /\ gauges (channel (snd (run_Collect (serving 200 shuffled_body) sample_exporter)))
       = [("iqair_up", up); ("iqair_co2", co2); ("iqair_p25", p25);
          ("iqair_p10", p10); ("iqair_temperature", temp);
          ("iqair_humidity", hum)]
    /\ Float64.represents up (inject_Z 1)
    /\ Float64.represents co2 (inject_Z 410)
    /\ Float64.represents p25 (inject_Z 5)
    /\ Float64.represents p10 (inject_Z 12)
    /\ Float64.represents hum (inject_Z 40)
    /\ temp = strconv.float_value (strconv.mkDecimal true 125 2 (Some 1))
    /\ (forall f : float64,
           Float64.valid f = true ->
           Float64.represents f (strconv.value (strconv.mkDecimal true 125 2 (Some 1))) ->
           Float64.represents temp
             (strconv.value (strconv.mkDecimal true 125 2 (Some 1)))).
Proof.
  apply (proj1 C4_gauges_equal_fields (serving 200 shuffled_body) sample_exporter
           200%Z shuffled_body
           (json.JObject
              [("status", json.JString "ok");
               ("Current",
                json.JObject
                  [("hm", json.JNumber (strconv.of_Z 40));
                   ("tp", json.JNumber (strconv.mkDecimal true 125 2 (Some 1)));
                   ("ts", json.JString "now");
                   ("p1", json.JNumber (strconv.of_Z 12));
                   ("CO", json.JNumber (strconv.of_Z 410));
                   ("p2", json.JNumber (strconv.of_Z 5));
                   ("vt", json.JNull)])])
           410%Z 5%Z 12%Z (strconv.mkDecimal true 125 2 (Some 1)) 40%Z);
    try reflexivity; vm_compute; discriminate.
Defined.

(** C4, as stated, fails: the integer 2^53 + 1 is a valid [co] field, and
    the gauge sent for it has the value 2^53. *)
Lemma C4_counterexample :
  (exists v,
      json.parse big_co_body = Some v
      /\ valid_envelope v
         = Some (9007199254740993, 5, 12, strconv.mkDecimal false 215 1 None, 40))
  /\ fst (run_Collect (serving 200 big_co_body) sample_exporter) = Returns tt
  /\ nth_error
       (gauges (channel (snd (run_Collect (serving 200 big_co_body) sample_exporter))))
       1
     = Some ("iqair_co2", S754_finite false (2 ^ 52) 1)
  /\ Float64.represents (S754_finite false (2 ^ 52) 1) (inject_Z 9007199254740992)
  /\ ~ Float64.represents (S754_finite false (2 ^ 52) 1) (inject_Z 9007199254740993).
Proof.
  split; [eexists; split; vm_compute; reflexivity|].
  split; [vm_compute; reflexivity|].
  split; [vm_compute; reflexivity|].
  split; [reflexivity|].
  vm_compute. discriminate.
Qed.

(** C5 (amended): a reading is published as valid, that is [up = 1] is
    sent together with the decoded gauge values, exactly when the GET
    returned a response, of whatever status code, whose body was read and
    decoded without error; in every other case the only value sent for the
    up indicator is 0. *)
Theorem C5_valid_iff_fetched_and_decoded (net : http.Upstream) (e : Exporter) :
  mutex e = false ->
  (forall parsed,
      fetched_and_decoded net e parsed ->
      channel (snd (run_Collect net e))
      = List.app (health Float64.const_1) (readings (Current parsed)))
  /\ (published_valid (snd (run_Collect net e)) ->
      exists parsed, fetched_and_decoded net e parsed)
  /\ ((~ exists parsed, fetched_and_decoded net e parsed) ->
      forall v, In ("iqair_up", v) (gauges (channel (snd (run_Collect net e)))) ->
                v = Float64.const_0).
Proof.
  intros Hm.
  assert (Hcases :
            (exists parsed, fetched_and_decoded net e parsed)
            \/ gauges (channel (snd (run_Collect net e))) = []
            \/ gauges (channel (snd (run_Collect net e)))
               = [("iqair_up", Float64.const_0)]).
  { destruct (net (URI e)) as [| |[status [body|]]] eqn:Hnet.
    - right; right. rewrite (Collect_transport_error net e Hm Hnet). reflexivity.
    - right; left. rewrite (Collect_never_answers net e Hm Hnet). reflexivity.
    - destruct (json.Unmarshal body APIResponse_zero) as [parsed [err|]] eqn:Hdec.
      + right; right.
        rewrite (Collect_decode_error net e Hm status body parsed err Hnet Hdec).
        reflexivity.
      + left. exists parsed, status, body. split; assumption.
    - right; right. rewrite (Collect_read_error net e Hm status Hnet). reflexivity. }
  split; [|split].
  - intros parsed (status & body & Hnet & Hdec).
    rewrite (Collect_decoded net e Hm status body parsed Hnet Hdec). reflexivity.
  - intros Hpub. destruct Hcases as [H|[H|H]]; [exact H| |];
      unfold published_valid in Hpub; rewrite H in Hpub; cbn in Hpub.
    + contradiction.
    + destruct Hpub as [Heq|[]]. discriminate Heq.
  - intros Hno v Hin. destruct Hcases as [H|[H|H]]; [contradiction| |];
      rewrite H in Hin; cbn in Hin.
    + contradiction.
    + destruct Hin as [Heq|[]]. injection Heq as <-. reflexivity.
Qed.

Lemma C5_valid_iff_fetched_and_decoded_witness :
  (forall parsed,
      fetched_and_decoded (serving 200 example_body) sample_exporter parsed ->
      channel (snd (run_Collect (serving 200 example_body) sample_exporter))
      = List.app (health Float64.const_1) (readings (Current parsed)))
  /\ (published_valid (snd (run_Collect (serving 200 example_body) sample_exporter)) ->
      exists parsed,
        fetched_and_decoded (serving 200 example_body) sample_exporter parsed)
  /\ ((~ exists parsed,
          fetched_and_decoded (serving 200 example_body) sample_exporter parsed) ->
      forall v,
        In ("iqair_up", v)
          (gauges (channel (snd (run_Collect (serving 200 example_body)
                                   sample_exporter)))) ->
        v = Float64.const_0).
Proof.
  apply (C5_valid_iff_fetched_and_decoded (serving 200 example_body) sample_exporter).
  reflexivity.
Defined.

(** C5, as stated, fails: a response with status 500 and body [{}] is
    published as valid although the retrieval was not a 2xx one. *)
Lemma C5_counterexample :
  published_valid (snd (run_Collect (serving 500 "{}") sample_exporter))
  /\ ~ fully_succeeded (serving 500 "{}") sample_exporter.
Proof.
  split.
  - vm_compute. left. reflexivity.
  - intros (status & body & parsed & Hnet & Hst & _).
    unfold serving in Hnet. injection Hnet as Hs _. lia.
Qed.

(** C6: for the body [{}] the decode succeeds, the missing fields keeping
    their zero values, and [Collect] sends [up = 1] and the five reading
    gauges with value 0. *)
Theorem C6_empty_object (net : http.Upstream) (e : Exporter) (status : Z) :
  mutex e = false ->
  net (URI e) = http.Answers (http.mkResponse status (Some "{}")) ->
  json.Unmarshal "{}" APIResponse_zero = (APIResponse_zero, None)
  /\ fst (run_Collect net e) = Returns tt
  /\ gauges (channel (snd (run_Collect net e)))
     = [("iqair_up", Float64.const_1); ("iqair_co2", Float64.zero);
        ("iqair_p25", Float64.zero); ("iqair_p10", Float64.zero);
        ("iqair_temperature", Float64.zero); ("iqair_humidity", Float64.zero)]
  /\ Float64.represents Float64.const_1 (inject_Z 1)
  /\ Float64.represents Float64.zero (inject_Z 0).
Proof.
  intros Hm Hnet.
  rewrite (Collect_decoded net e Hm status "{}" _ Hnet Unmarshal_empty_object).
  repeat split; reflexivity.
Qed.

Lemma C6_empty_object_witness :
  json.Unmarshal "{}" APIResponse_zero = (APIResponse_zero, None)
  /\ fst (run_Collect (serving 200 "{}") sample_exporter) = Returns tt
  /\ gauges (channel (snd (run_Collect (serving 200 "{}") sample_exporter)))
     = [("iqair_up", Float64.const_1); ("iqair_co2", Float64.zero);
        ("iqair_p25", Float64.zero); ("iqair_p10", Float64.zero);
        ("iqair_temperature", Float64.zero); ("iqair_humidity", Float64.zero)]
  /\ Float64.represents Float64.const_1 (inject_Z 1)
  /\ Float64.represents Float64.zero (inject_Z 0).
Proof.
  apply (C6_empty_object (serving 200 "{}") sample_exporter 200%Z); reflexivity.
Defined.

(** C7 (as the code behaves): the timeout given to [NewExporter] is not
    kept anywhere, the GET goes through the default client, which has no
    timeout, and a scrape of an upstream that never answers never returns,
    where a client with the 10 second timeout would give up with an error. *)
Theorem C7_timeout_is_dropped :
  (forall uri t1 t2 lg, NewExporter uri t1 lg = NewExporter uri t2 lg)
  /\ http.Timeout http.DefaultClient = 0%Z
  /\ (forall net uri,
         net uri = http.NeverAnswers ->
         http.Client_Get (http.mkClient (10 * http.Second)) net uri = http.GetErr)
  /\ (forall net e,
         mutex e = false ->
         net (URI e) = http.NeverAnswers ->
         fst (run_Collect net e) = Hangs).
Proof.
  split; [reflexivity|]. split; [reflexivity|]. split.
  - intros net uri Hnet. unfold http.Client_Get. rewrite Hnet. reflexivity.
  - intros net e Hm Hnet. rewrite (Collect_never_answers net e Hm Hnet). reflexivity.
Qed.

Lemma C7_timeout_is_dropped_witness :
  fst (run_Collect silent sample_exporter) = Hangs.
Proof.
  apply (proj2 (proj2 (proj2 C7_timeout_is_dropped)) silent sample_exporter);
    reflexivity.
Defined.

(** C8: the commands [program] cuts a call into are those of [Collect]:
    run in order on any exporter they end as [Collect] does, with the same
    outcome, exporter and channel.  However the goroutines of overlapping
    [Collect] calls on one exporter are then scheduled, at most one of them
    is between its [Lock] and its [Unlock]; while one is, no other can move,
    so a second caller waits until the first has unlocked, and once none is
    inside a waiting caller can lock; in the trace the commands of one call,
    its counter increment, its GET and its sends, are never interleaved with
    those of another; and a call that has finished has ended with the outcome
    and the metrics [Collect] gives alone for the result of its own GET. *)
Theorem C8_overlapping_calls_are_serialized (e : Exporter)
  (nets : list http.Upstream) (sched : list nat) :
  mutex e = false ->
  (forall net e',
      run_cmds (program (http.Get net (URI e'))) None (mkState e' [])
      = run_Collect net e')
  /\ mutual_exclusion (run sched (overlapping e nets))
  /\ others_wait (run sched (overlapping e nets))
  /\ can_enter (run sched (overlapping e nets))
  /\ no_interleaving (trace (run sched (overlapping e nets)))
  /\ (forall i th,
         nth_error (threads (run sched (overlapping e nets))) i = Some th ->
         todo th = [] ->
         exists net,
           nth_error nets i = Some net
           /\ outcome th = fst (run_Collect net e)
           /\ chan th = channel (snd (run_Collect net e))).
Proof.
  intros Hm. unfold overlapping.
  set (gets := map (fun net => http.Get net (URI e)) nets).
  split; [exact program_refines_Collect|].
  destruct (invariant_run sched (start e gets) None (invariant_start e gets Hm))
    as [o Hinv].
  split; [exact (invariant_mutual_exclusion _ o Hinv)|].
  split; [exact (invariant_others_wait _ o Hinv)|].
  split; [exact (invariant_can_enter _ o Hinv)|].
  split; [exact (owner_no_interleaving _ o (inv_trace _ o Hinv))|].
  intros i th Hth Hdone.
  destruct (delivery_run e gets sched (start e gets) None
              (invariant_start e gets Hm) (delivery_start e gets) i th Hth)
    as (g & Hg & Hdel & _).
  unfold gets in Hg. rewrite nth_error_map in Hg.
  destruct (nth_error nets i) as [net|]; [|discriminate Hg].
  injection Hg as <-. exists net. split; [reflexivity|].
  unfold delivers in Hdel. unfold inside in Hdel at 1. rewrite Hdone in Hdel.
  cbn [run_cmds fst snd channel todo chan failure inside inside_todo program] in Hdel.
  destruct (run_cmds_independent (program (http.Get net (URI e))) None
              (with_mutex false e) e []) as [H1 H2];
    [cbn [with_mutex mutex]; congruence|].
  rewrite <- (program_refines_Collect net e), <- H1, <- H2.
  injection Hdel as Ho Hc. split; [exact Ho|exact Hc].
Qed.

Lemma C8_overlapping_calls_are_serialized_witness :
  map fst (trace (run (alternate 30) (overlapping sample_exporter two_callers)))
  = List.app (repeat 0%nat 14) (repeat 1%nat 10)
  /\ nth_error (threads (run (alternate 30) (overlapping sample_exporter two_callers))) 1
     = Some (mkThread [] (health Float64.const_0) (Some NilDereference))
  /\ (forall net e',
         run_cmds (program (http.Get net (URI e'))) None (mkState e' [])
         = run_Collect net e')
  /\ mutual_exclusion (run (alternate 30) (overlapping sample_exporter two_callers))
  /\ others_wait (run (alternate 30) (overlapping sample_exporter two_callers))
  /\ can_enter (run (alternate 30) (overlapping sample_exporter two_callers))
  /\ no_interleaving
       (trace (run (alternate 30) (overlapping sample_exporter two_callers)))
  /\ (forall i th,
         nth_error
           (threads (run (alternate 30) (overlapping sample_exporter two_callers))) i
         = Some th ->
         todo th = [] ->
         exists net,
           nth_error two_callers i = Some net
           /\ outcome th = fst (run_Collect net sample_exporter)
           /\ chan th = channel (snd (run_Collect net sample_exporter))).
Proof.
  split; [vm_compute; reflexivity|].
  split; [vm_compute; reflexivity|].
  apply (C8_overlapping_calls_are_serialized sample_exporter two_callers
           (alternate 30)).
  reflexivity.
Defined.

(** C9: for every URI, timeout and logger, [NewExporter] returns a non-nil
    exporter and a nil error. *)
Theorem C9_NewExporter_never_fails (uri : string) (timeout : http.Duration)
  (lg : Logger) :
  exists e : Exporter,
    NewExporter uri timeout lg = (Some e, None)
    /\ URI e = uri /\ logger e = lg.
Proof.
  unfold NewExporter. eexists. split; [reflexivity|]. split; reflexivity.
Qed.

(** C10: when the fetch and the decode both succeed, [Collect] sends
    exactly eight metrics, in the order totalScrapes, jsonParseFailures, up,
    co2, p25, p10, temperature, humidity. *)
Theorem C10_eight_metrics_in_order (net : http.Upstream) (e : Exporter)
  (parsed : APIResponse) :
  mutex e = false ->
  fetched_and_decoded net e parsed ->
  fst (run_Collect net e) = Returns tt
  /\ channel (snd (run_Collect net e))
     = [CounterMetric RefTotalScrapes;
        CounterMetric RefJsonParseFailures;
        ConstMetric iqAirUp prometheus.GaugeValue Float64.const_1;
        ConstMetric iqAirCO2 prometheus.GaugeValue
          (Float64.of_int (CO2 (Current parsed)));
        ConstMetric iqAirP25 prometheus.GaugeValue
          (Float64.of_int (P25 (Current parsed)));
        ConstMetric iqAirP10 prometheus.GaugeValue
          (Float64.of_int (P10 (Current parsed)));
        ConstMetric iqAirTemp prometheus.GaugeValue
          (Temperature (Current parsed));
        ConstMetric iqAirHumidity prometheus.GaugeValue
          (Float64.of_int (Humidity (Current parsed)))]
  /\ List.length (channel (snd (run_Collect net e))) = 8%nat.
Proof.
  intros Hm (status & body & Hnet & Hdec).
  rewrite (Collect_decoded net e Hm status body parsed Hnet Hdec).
  repeat split; reflexivity.
Qed.

Lemma C10_eight_metrics_in_order_witness :
  fst (run_Collect (serving 200 "{}") sample_exporter) = Returns tt
  /\ channel (snd (run_Collect (serving 200 "{}") sample_exporter))
     = [CounterMetric RefTotalScrapes;
        CounterMetric RefJsonParseFailures;
        ConstMetric iqAirUp prometheus.GaugeValue Float64.const_1;
        ConstMetric iqAirCO2 prometheus.GaugeValue (Float64.of_int 0);
        ConstMetric iqAirP25 prometheus.GaugeValue (Float64.of_int 0);
        ConstMetric iqAirP10 prometheus.GaugeValue (Float64.of_int 0);
        ConstMetric iqAirTemp prometheus.GaugeValue Float64.zero;
        ConstMetric iqAirHumidity prometheus.GaugeValue (Float64.of_int 0)]
  /\ List.length (channel (snd (run_Collect (serving 200 "{}") sample_exporter)))
     = 8%nat.
Proof.
  apply (C10_eight_metrics_in_order (serving 200 "{}") sample_exporter
           APIResponse_zero); [reflexivity|].
  exists 200%Z, "{}". split; reflexivity.
Defined.

(** The names under which the eight metrics of one successful call are
    exposed, in the order they are sent. *)
Lemma names_in_order :
  let s := snd (run_Collect (serving 200 example_body) sample_exporter) in
  map (fun m => fst (fst (sample (exporter s) m))) (channel s)
  = ["iqair_exporter_scrapes_total"; "iqair_exporter_json_parse_failures_total";
     "iqair_up"; "iqair_co2"; "iqair_p25"; "iqair_p10"; "iqair_temperature";
     "iqair_humidity"].
Proof. vm_compute. reflexivity. Qed.

(** * Beyond the claims *)

(** ** Calls one after the other: facts *)

Section Sequences.

Lemma Collect_locked net e :
  mutex e = true -> run_Collect net e = (Hangs, mkState e []).
Proof.
  intros Hm. unfold run_Collect, Collect, bind, Lock. cbn [exporter].
  rewrite Hm. reflexivity.
Qed.

(** The exporter a call leaves, when the call returns or panics. *)
Lemma Collect_exporter net e :
  mutex e = false -> net (URI e) <> http.NeverAnswers ->
  exists logged, exporter (snd (run_Collect net e)) = after_scrape e logged.
Proof.
  intros Hm Hnet. destruct (net (URI e)) as [| |[status [body|]]] eqn:Hr.
  - eexists. rewrite (Collect_transport_error net e Hm Hr). reflexivity.
  - contradiction.
  - destruct (json.Unmarshal body APIResponse_zero) as [parsed [err|]] eqn:Hdec.
    + eexists. rewrite (Collect_decode_error net e Hm status body parsed err Hr Hdec).
      reflexivity.
    + eexists. rewrite (Collect_decoded net e Hm status body parsed Hr Hdec).
      reflexivity.
  - eexists. rewrite (Collect_read_error net e Hm status Hr). reflexivity.
Qed.

End Sequences.

(** X1: after any number of calls of [Collect] one after the other, none
    of which meets an upstream that never answers, [totalScrapes] has grown
    by the number of calls, whatever their results, [jsonParseFailures] has
    the value it had, the mutex is free and the URI is the same. *)
Theorem X1_calls_in_sequence_count (nets : list http.Upstream) (e : Exporter) :
  mutex e = false ->
  Forall (fun net => net (URI e) <> http.NeverAnswers) nets ->
  prometheus.counter_value (totalScrapes (Collects nets e))
  = (prometheus.counter_value (totalScrapes e) + N.of_nat (List.length nets))%N
  /\ jsonParseFailures (Collects nets e) = jsonParseFailures e
  /\ mutex (Collects nets e) = false
  /\ URI (Collects nets e) = URI e.
Proof.
  revert e. induction nets as [|net nets IH]; intros e Hm Hall.
  - cbn [Collects List.length N.of_nat]. rewrite N.add_0_r. repeat split. exact Hm.
  - inversion Hall as [|? ? Hnet Hrest]; subst.
    destruct (Collect_exporter net e Hm Hnet) as [logged He'].
    cbn [Collects]. rewrite He'.
    assert (Hrest' : Forall (fun net0 => net0 (URI (after_scrape e logged))
                                         <> http.NeverAnswers) nets) by exact Hrest.
    destruct (IH (after_scrape e logged) eq_refl Hrest') as (Ht & Hj & Hmx & Hu).
    rewrite Ht, Hj, Hmx, Hu. cbn [after_scrape totalScrapes jsonParseFailures URI
      prometheus.Inc prometheus.counter_value List.length].
    repeat split. lia.
Qed.

Lemma X1_calls_in_sequence_count_witness :
  prometheus.counter_value
    (totalScrapes
       (Collects [serving 200 example_body; unreachable; serving 500 "oops"]
          sample_exporter))
  = 3%N
  /\ jsonParseFailures
       (Collects [serving 200 example_body; unreachable; serving 500 "oops"]
          sample_exporter)
     = jsonParseFailures sample_exporter
  /\ mutex
       (Collects [serving 200 example_body; unreachable; serving 500 "oops"]
          sample_exporter)
     = false
  /\ URI
       (Collects [serving 200 example_body; unreachable; serving 500 "oops"]
          sample_exporter)
     = URI sample_exporter.
Proof.
  apply (X1_calls_in_sequence_count
           [serving 200 example_body; unreachable; serving 500 "oops"]
           sample_exporter).
  - reflexivity.
  - repeat constructor; discriminate.
Defined.

Lemma Collect_descriptors net e :
  prometheus.counter_desc (totalScrapes (exporter (snd (run_Collect net e))))
  = prometheus.counter_desc (totalScrapes e)
  /\ prometheus.counter_desc (jsonParseFailures (exporter (snd (run_Collect net e))))
     = prometheus.counter_desc (jsonParseFailures e).
Proof.
  destruct (mutex e) eqn:Hm.
  - rewrite (Collect_locked net e Hm). split; reflexivity.
  - destruct (net (URI e)) as [| |[status [body|]]] eqn:Hr.
    + rewrite (Collect_transport_error net e Hm Hr). split; reflexivity.
    + rewrite (Collect_never_answers net e Hm Hr). split; reflexivity.
    + destruct (json.Unmarshal body APIResponse_zero) as [parsed [err|]] eqn:Hdec.
      * rewrite (Collect_decode_error net e Hm status body parsed err Hr Hdec).
        split; reflexivity.
      * rewrite (Collect_decoded net e Hm status body parsed Hr Hdec).
        split; reflexivity.
    + rewrite (Collect_read_error net e Hm status Hr). split; reflexivity.
Qed.

(** X2: [Describe] sends the same descriptors before and after any
    sequence of [Collect] calls, whatever the upstream did. *)
Theorem X2_Describe_is_static (nets : list http.Upstream) (e : Exporter)
  (ch : list prometheus.Desc) :
  Describe (Collects nets e) ch = Describe e ch.
Proof.
  revert e. induction nets as [|net nets IH]; intros e; [reflexivity|].
  cbn [Collects]. rewrite IH. unfold Describe.
  destruct (Collect_descriptors net e) as [-> ->]. reflexivity.
Qed.

(** X3: a call of [Collect] ends in one of three ways: it returns after
    eight sends with the mutex free; it panics on the nil result of [scrape]
    after the three sends of the counters and [up = 0], with the mutex free;
    or it never returns, has sent nothing and the mutex stays locked.  No
    other panic occurs: neither [MustNewConstMetric] nor the deferred
    [Unlock] panics. *)
Theorem X3_Collect_outcomes (net : http.Upstream) (e : Exporter) :
  (fst (run_Collect net e) = Returns tt
   /\ List.length (channel (snd (run_Collect net e))) = 8%nat
   /\ mutex (exporter (snd (run_Collect net e))) = false)
  \/ (fst (run_Collect net e) = Panics NilDereference
      /\ channel (snd (run_Collect net e)) = health Float64.const_0
      /\ mutex (exporter (snd (run_Collect net e))) = false)
  \/ (fst (run_Collect net e) = Hangs
      /\ channel (snd (run_Collect net e)) = []
      /\ mutex (exporter (snd (run_Collect net e))) = true).
Proof.
  destruct (mutex e) eqn:Hm.
  - right; right. rewrite (Collect_locked net e Hm). repeat split. exact Hm.
  - destruct (net (URI e)) as [| |[status [body|]]] eqn:Hr.
    + right; left. rewrite (Collect_transport_error net e Hm Hr). repeat split.
    + right; right. rewrite (Collect_never_answers net e Hm Hr). repeat split.
    + destruct (json.Unmarshal body APIResponse_zero) as [parsed [err|]] eqn:Hdec.
      * right; left.
        rewrite (Collect_decode_error net e Hm status body parsed err Hr Hdec).
        repeat split.
      * left. rewrite (Collect_decoded net e Hm status body parsed Hr Hdec).
        repeat split.
    + right; left. rewrite (Collect_read_error net e Hm status Hr). repeat split.
Qed.

(** X4: [Collect] never reads [resp.StatusCode], nor anything of the
    network but the result of the GET of the exporter's URI: when [http.Get]
    ends the same way for two upstreams, with responses whose bodies read the
    same, whatever their status codes, [Collect] ends in the same state with
    the same outcome. *)
Theorem X4_only_the_body_matters (net1 net2 : http.Upstream) (e : Exporter) :
  same_answer (net1 (URI e)) (net2 (URI e)) ->
  run_Collect net1 e = run_Collect net2 e.
Proof.
  intros Hsame. destruct (mutex e) eqn:Hm.
  - rewrite !Collect_locked by exact Hm. reflexivity.
  - destruct (net1 (URI e)) as [| |[s1 b1]] eqn:H1;
      destruct (net2 (URI e)) as [| |[s2 b2]] eqn:H2;
      cbn [same_answer http.Body] in Hsame; try contradiction.
    + rewrite (Collect_transport_error net1 e Hm H1),
        (Collect_transport_error net2 e Hm H2). reflexivity.
    + rewrite (Collect_never_answers net1 e Hm H1),
        (Collect_never_answers net2 e Hm H2). reflexivity.
    + subst b2. destruct b1 as [body|].
      * destruct (json.Unmarshal body APIResponse_zero) as [parsed [err|]] eqn:Hdec.
        -- rewrite (Collect_decode_error net1 e Hm s1 body parsed err H1 Hdec),
             (Collect_decode_error net2 e Hm s2 body parsed err H2 Hdec).
           reflexivity.
        -- rewrite (Collect_decoded net1 e Hm s1 body parsed H1 Hdec),
             (Collect_decoded net2 e Hm s2 body parsed H2 Hdec).
           reflexivity.
      * rewrite (Collect_read_error net1 e Hm s1 H1),
          (Collect_read_error net2 e Hm s2 H2). reflexivity.
Qed.

Lemma X4_only_the_body_matters_witness :
  run_Collect (serving 200 example_body) sample_exporter
  = run_Collect (serving 503 example_body) sample_exporter.
Proof.
  apply (X4_only_the_body_matters (serving 200 example_body)
           (serving 503 example_body) sample_exporter).
  reflexivity.
Defined.

(** ** Which documents decode: facts *)

Section Decoding.

Lemma store_int_ok v cur :
  snd (json.store_int v cur) = None <-> int_ok v = true.
Proof.
  destruct v as [|b|n|s|l|ms]; cbn; try (split; discriminate); try tauto.
  destruct (strconv.ParseInt n); cbn; split; congruence.
Qed.

Lemma store_float_ok v cur :
  snd (json.store_float v cur) = None <-> float_ok v = true.
Proof.
  destruct v as [|b|n|s|l|ms]; cbn; try (split; discriminate); try tauto.
  destruct (strconv.ParseFloat n); cbn; split; congruence.
Qed.

Lemma store_field_ok k v d :
  snd (json.store_field k v d) = None <-> member_ok (k, v) = true.
Proof.
  unfold json.store_field, member_ok.
  repeat match goal with
         | |- context [json.equal_fold ?a k] => destruct (json.equal_fold a k)
         end;
    try (rewrite <- (store_int_ok v (CO2 d)); destruct (json.store_int v (CO2 d)); reflexivity);
    try (rewrite <- (store_int_ok v (P25 d)); destruct (json.store_int v (P25 d)); reflexivity);
    try (rewrite <- (store_int_ok v (P10 d)); destruct (json.store_int v (P10 d)); reflexivity);
    try (rewrite <- (store_int_ok v (Humidity d)); destruct (json.store_int v (Humidity d)); reflexivity);
    try (rewrite <- (store_float_ok v (Temperature d));
         destruct (json.store_float v (Temperature d)); reflexivity).
  cbn. tauto.
Qed.

Lemma save_error_none saved e :
  json.save_error saved e = None <-> saved = None /\ e = None.
Proof. destruct saved, e; cbn; split; try tauto; try (intros [? ?]; congruence); congruence. Qed.

Lemma store_fields_ok ms : forall d saved,
  snd (json.store_fields ms d saved) = None
  <-> saved = None /\ forallb member_ok ms = true.
Proof.
  induction ms as [|[k v] ms IH]; intros d saved; cbn [json.store_fields forallb].
  - cbn. tauto.
  - destruct (json.store_field k v d) as [d' e] eqn:Hf.
    rewrite IH, save_error_none, andb_true_iff, <- (store_field_ok k v d), Hf.
    cbn [snd]. tauto.
Qed.

Lemma store_APIData_ok v d :
  snd (json.store_APIData v d) = None <-> current_ok v = true.
Proof.
  destruct v as [|b|n|s|l|fs]; cbn [json.store_APIData current_ok snd];
    try (split; discriminate); try tauto.
  rewrite store_fields_ok. tauto.
Qed.

Lemma store_members_ok ms : forall r saved,
  snd (json.store_members ms r saved) = None
  <-> saved = None /\ forallb top_ok ms = true.
Proof.
  induction ms as [|[k v] ms IH]; intros r saved;
    cbn [json.store_members forallb top_ok].
  - cbn. tauto.
  - destruct (json.equal_fold "current" k).
    + destruct (json.store_APIData v (Current r)) as [d e] eqn:Hs.
      rewrite IH, save_error_none, andb_true_iff, <- (store_APIData_ok v (Current r)), Hs.
      cbn [snd]. tauto.
    + rewrite IH. cbn [andb]. tauto.
Qed.

Lemma store_APIResponse_ok v r :
  snd (json.store_APIResponse v r) = None <-> document_ok v = true.
Proof.
  destruct v as [|b|n|s|l|ms]; cbn [json.store_APIResponse document_ok snd];
    try (split; discriminate); try tauto.
  rewrite store_members_ok. tauto.
Qed.

Lemma Unmarshal_ok body r :
  snd (json.Unmarshal body r) = None
  <-> exists v, json.parse body = Some v /\ document_ok v = true.
Proof.
  unfold json.Unmarshal. destruct (json.parse body) as [v|].
  - rewrite store_APIResponse_ok. split.
    + intros H. exists v. split; [reflexivity|exact H].
    + intros (v' & Hv & H). injection Hv as <-. exact H.
  - cbn. split; [discriminate|]. intros (v & Hv & _). discriminate Hv.
Qed.

End Decoding.

(** X5: when the body of the response was read, [Collect] returns exactly
    when the body is one JSON value, nested no deeper than the 10000 levels
    encoding/json accepts, that is [null] or an object in which
    every member named [current] is [null] or an object whose members named
    [co], [p2], [p1], [hm] hold [null] or an integer of 64 bits and whose
    members named [tp] hold [null] or a number in the range of a float64
    (names compared without regard to letter case); for every other body it
    panics on the nil result. *)
Theorem X5_scrape_succeeds_iff_document_ok (net : http.Upstream) (e : Exporter)
  (status : Z) (body : string) :
  mutex e = false ->
  net (URI e) = http.Answers (http.mkResponse status (Some body)) ->
  (fst (run_Collect net e) = Returns tt
   <-> exists v, json.parse body = Some v /\ document_ok v = true)
  /\ (fst (run_Collect net e) = Panics NilDereference
      <-> ~ exists v, json.parse body = Some v /\ document_ok v = true).
Proof.
  intros Hm Hnet.
  pose proof (Unmarshal_ok body APIResponse_zero) as Hok.
  destruct (json.Unmarshal body APIResponse_zero) as [parsed [err|]] eqn:Hdec;
    cbn [snd] in Hok.
  - rewrite (Collect_decode_error net e Hm status body parsed err Hnet Hdec).
    cbn [fst]. split; split.
    + discriminate.
    + intros H. apply Hok in H. discriminate H.
    + intros _ H. apply Hok in H. discriminate H.
    + reflexivity.
  - rewrite (Collect_decoded net e Hm status body parsed Hnet Hdec).
    cbn [fst]. split; split.
    + intros _. apply Hok. reflexivity.
    + reflexivity.
    + discriminate.
    + intros H. exfalso. apply H, Hok. reflexivity.
Qed.

Lemma X5_scrape_succeeds_iff_document_ok_witness :
  (fst (run_Collect (serving 200 (text "{'current':{'co':4.5}}")) sample_exporter)
   = Returns tt
   <-> exists v, json.parse (text "{'current':{'co':4.5}}") = Some v
                 /\ document_ok v = true)
  /\ (fst (run_Collect (serving 200 (text "{'current':{'co':4.5}}")) sample_exporter)
      = Panics NilDereference
      <-> ~ exists v, json.parse (text "{'current':{'co':4.5}}") = Some v
                      /\ document_ok v = true).
Proof.
  apply (X5_scrape_succeeds_iff_document_ok
           (serving 200 (text "{'current':{'co':4.5}}")) sample_exporter 200%Z
           (text "{'current':{'co':4.5}}")); reflexivity.
Defined.

(** X6: a body that reads as a JSON object without a member named
    [current], for instance an error document of the device API, is
    published as a valid reading, [up = 1] and the five gauges at 0: the
    status code of the response is not looked at. *)
Theorem X6_no_current_member_reads_zero (net : http.Upstream) (e : Exporter)
  (status : Z) (body : string) (ms : list (string * json.value)) :
  mutex e = false ->
  net (URI e) = http.Answers (http.mkResponse status (Some body)) ->
  json.parse body = Some (json.JObject ms) ->
  lacks "current" ms = true ->
  fst (run_Collect net e) = Returns tt
  /\ gauges (channel (snd (run_Collect net e)))
     = [("iqair_up", Float64.const_1); ("iqair_co2", Float64.zero);
        ("iqair_p25", Float64.zero); ("iqair_p10", Float64.zero);
        ("iqair_temperature", Float64.zero); ("iqair_humidity", Float64.zero)].
Proof.
  intros Hm Hnet Hparse Hlacks.
  assert (Hdec : json.Unmarshal body APIResponse_zero = (APIResponse_zero, None)).
  { unfold json.Unmarshal. rewrite Hparse. cbn [json.store_APIResponse].
    apply store_members_lacks. exact Hlacks. }
  rewrite (Collect_decoded net e Hm status body _ Hnet Hdec).
  split; reflexivity.
Qed.

Lemma X6_no_current_member_reads_zero_witness :
  fst (run_Collect (serving 404 (text "{'error':'not found'}")) sample_exporter)
  = Returns tt
  /\ gauges (channel (snd (run_Collect (serving 404 (text "{'error':'not found'}"))
                             sample_exporter)))
     = [("iqair_up", Float64.const_1); ("iqair_co2", Float64.zero);
        ("iqair_p25", Float64.zero); ("iqair_p10", Float64.zero);
        ("iqair_temperature", Float64.zero); ("iqair_humidity", Float64.zero)].
Proof.
  apply (X6_no_current_member_reads_zero
           (serving 404 (text "{'error':'not found'}")) sample_exporter 404%Z
           (text "{'error':'not found'}") [("error", json.JString "not found")]);
    reflexivity.
Defined.

(** X7: for an envelope whose [current] object decodes, a reading whose
    key is absent from the object is published as 0, next to the readings
    that are there. *)
Theorem X7_absent_field_reads_zero (net : http.Upstream) (e : Exporter)
  (status : Z) (body : string) (fs : list (string * json.value)) :
  mutex e = false ->
  net (URI e) = http.Answers (http.mkResponse status (Some body)) ->
  json.parse body = Some (json.JObject [("current", json.JObject fs)]) ->
  forallb member_ok fs = true ->
  exists co2 p25 p10 temp hum,
    fst (run_Collect net e) = Returns tt
    /\ gauges (channel (snd (run_Collect net e)))
       = [("iqair_up", Float64.const_1); ("iqair_co2", co2); ("iqair_p25", p25);
          ("iqair_p10", p10); ("iqair_temperature", temp);
          ("iqair_humidity", hum)]
    /\ (lacks "co" fs = true -> co2 = Float64.zero)
    /\ (lacks "p2" fs = true -> p25 = Float64.zero)
    /\ (lacks "p1" fs = true -> p10 = Float64.zero)
    /\ (lacks "tp" fs = true -> temp = Float64.zero)
    /\ (lacks "hm" fs = true -> hum = Float64.zero).
Proof.
  intros Hm Hnet Hparse Hok.
  destruct (json.store_fields fs APIData_zero None) as [d err] eqn:Hs.
  assert (Herr : err = None).
  { pose proof (proj2 (store_fields_ok fs APIData_zero None) (conj eq_refl Hok)) as H.
    rewrite Hs in H. exact H. }
  subst err.
  assert (Hdec : json.Unmarshal body APIResponse_zero = (mkAPIResponse d, None)).
  { unfold json.Unmarshal. rewrite Hparse.
    cbn [json.store_APIResponse json.store_members].
    change (json.equal_fold "current" "current") with true. cbv beta iota.
    cbn [json.store_APIData Current APIResponse_zero]. rewrite Hs. reflexivity. }
  rewrite (Collect_decoded net e Hm status body _ Hnet Hdec).
  pose proof (store_fields_keeps fs APIData_zero None) as (K1 & K2 & K3 & K4 & K5).
  rewrite Hs in K1, K2, K3, K4, K5. cbn [fst Current] in K1, K2, K3, K4, K5 |- *.
  exists (Float64.of_int (CO2 d)), (Float64.of_int (P25 d)),
    (Float64.of_int (P10 d)), (Temperature d), (Float64.of_int (Humidity d)).
  split; [reflexivity|]. split; [reflexivity|].
  repeat split; intros H.
  - rewrite (K1 H). reflexivity.
  - rewrite (K2 H). reflexivity.
  - rewrite (K3 H). reflexivity.
  - rewrite (K4 H). reflexivity.
  - rewrite (K5 H). reflexivity.
Qed.

Lemma X7_absent_field_reads_zero_witness :
  exists co2 p25 p10 temp hum,
    fst (run_Collect (serving 200 (text "{'current':{'co':410}}")) sample_exporter)
    = Returns tt
    /\ gauges (channel (snd (run_Collect (serving 200 (text "{'current':{'co':410}}"))
                               sample_exporter)))
       = [("iqair_up", Float64.const_1); ("iqair_co2", co2); ("iqair_p25", p25);
          ("iqair_p10", p10); ("iqair_temperature", temp);
          ("iqair_humidity", hum)]
    /\ (lacks "co" [("co", json.JNumber (strconv.of_Z 410))] = true ->
        co2 = Float64.zero)
    /\ (lacks "p2" [("co", json.JNumber (strconv.of_Z 410))] = true ->
        p25 = Float64.zero)
    /\ (lacks "p1" [("co", json.JNumber (strconv.of_Z 410))] = true ->
        p10 = Float64.zero)
    /\ (lacks "tp" [("co", json.JNumber (strconv.of_Z 410))] = true ->
        temp = Float64.zero)
    /\ (lacks "hm" [("co", json.JNumber (strconv.of_Z 410))] = true ->
        hum = Float64.zero).
Proof.
  apply (X7_absent_field_reads_zero
           (serving 200 (text "{'current':{'co':410}}")) sample_exporter 200%Z
           (text "{'current':{'co':410}}")
           [("co", json.JNumber (strconv.of_Z 410))]); reflexivity.
Defined.

(** ** Overlapping calls: a GET that is never answered *)

Section Frozen.

Lemma run_stuck sched cfg :
  (forall j, step j cfg = None) -> run sched cfg = cfg.
Proof.
  intros Hstuck. induction sched as [|i sched IH]; [reflexivity|].
  cbn [run]. rewrite Hstuck. exact IH.
Qed.

End Frozen.

(** X8: once the GET of one call is never answered, the exporter is
    frozen: the mutex stays locked and, whatever the scheduler does next, no
    goroutine moves, so that no other call gets past [Lock]. *)
Theorem X8_unanswered_GET_freezes_the_exporter (e : Exporter)
  (gets : list http.GetResult) (sched later : list nat) (i : nat) (th : Thread)
  (k : list Cmd) :
  mutex e = false ->
  nth_error (threads (run sched (start e gets))) i = Some th ->
  todo th = CGetEnd http.GetHangs :: k ->
  run later (run sched (start e gets)) = run sched (start e gets)
  /\ mutex (shared (run sched (start e gets))) = true.
Proof.
  intros Hm Hth Htodo.
  destruct (invariant_run sched (start e gets) None (invariant_start e gets Hm))
    as [o Hinv].
  assert (Hin : inside th = true) by (unfold inside; rewrite Htodo; reflexivity).
  split.
  - apply run_stuck. intros j. destruct (Nat.eq_dec j i) as [->|Hne].
    + unfold step. rewrite Hth, Htodo. reflexivity.
    + exact (invariant_others_wait _ o Hinv i j th Hth Hin Hne).
  - rewrite (inv_mutex _ o Hinv).
    rewrite (proj1 (inv_owner _ o Hinv i th Hth) Hin). reflexivity.
Qed.

Lemma X8_unanswered_GET_freezes_the_exporter_witness :
  run (alternate 30)
    (run [0; 0; 0; 1; 1]%nat (start sample_exporter [http.GetHangs; http.GetErr]))
  = run [0; 0; 0; 1; 1]%nat (start sample_exporter [http.GetHangs; http.GetErr])
  /\ mutex (shared (run [0; 0; 0; 1; 1]%nat
                      (start sample_exporter [http.GetHangs; http.GetErr])))
     = true.
Proof.
  apply (X8_unanswered_GET_freezes_the_exporter sample_exporter
           [http.GetHangs; http.GetErr] [0; 0; 0; 1; 1]%nat (alternate 30) 0%nat
           (mkThread [CGetEnd http.GetHangs; CUnlock] [] None) [CUnlock]);
    reflexivity.
Defined.

(** X9: under every schedule of overlapping calls, a call that has
    finished has sent on its channel exactly the metrics, and ended with the
    outcome, that [Collect] gives when it runs alone against the same
    upstream. *)
Theorem X9_overlapping_calls_deliver_as_alone (e : Exporter)
  (nets : list http.Upstream) (sched : list nat) (i : nat) (th : Thread) :
  mutex e = false ->
  nth_error
    (threads (run sched (start e (map (fun net => http.Get net (URI e)) nets)))) i
  = Some th ->
  todo th = [] ->
  exists net,
    nth_error nets i = Some net
    /\ chan th = channel (snd (run_Collect net e))
    /\ match failure th with Some p => Panics p | None => Returns tt end
       = fst (run_Collect net e).
Proof.
  intros Hm Hth Hdone.
  set (gets := map (fun net => http.Get net (URI e)) nets) in *.
  pose proof (delivery_run e gets sched (start e gets) None
                (invariant_start e gets Hm) (delivery_start e gets)) as Hkept.
  destruct (Hkept i th Hth) as (g & Hg & Hdel & _).
  unfold gets in Hg. rewrite nth_error_map in Hg.
  destruct (nth_error nets i) as [net|]; [|discriminate Hg].
  injection Hg as <-. exists net. split; [reflexivity|].
  unfold delivers in Hdel. unfold inside in Hdel at 1. rewrite Hdone in Hdel.
  cbn [run_cmds fst snd channel todo chan failure inside inside_todo program] in Hdel.
  destruct (run_cmds_independent (program (http.Get net (URI e))) None
              (with_mutex false e) e []) as [H1 H2];
    [cbn [with_mutex mutex]; congruence|].
  rewrite <- (program_refines_Collect net e), <- H1, <- H2.
  injection Hdel as Ho Hc. split; [exact Hc|exact Ho].
Qed.

Lemma X9_overlapping_calls_deliver_as_alone_witness :
  exists net,
    nth_error [serving 200 "{}"; unreachable] 1 = Some net
    /\ health Float64.const_0 = channel (snd (run_Collect net sample_exporter))
    /\ Panics NilDereference = fst (run_Collect net sample_exporter).
Proof.
  apply (X9_overlapping_calls_deliver_as_alone sample_exporter
           [serving 200 "{}"; unreachable] (alternate 30) 1%nat
           (mkThread [] (health Float64.const_0) (Some NilDereference)));
    reflexivity.
Defined.
